(** * CSV analyzer: ingestion and profiling pipeline

    A shallow embedding of [src/app.py] (the web surface) and
    [src/analyze_csv.py] (the command-line surface), with the properties the
    specification states about them.

    Conventions.
    - Python [bytes] is [list byte]; Python [str] is a list of Unicode code
      points ([list N]); program literals that are plain ASCII ("utf-8",
      "KB", ...) are Rocq strings.
    - Python exceptions are values of [exn]; a computation that may raise has
      type [result A].  [try_except] is the [try: ... except E: ...] block.
    - Third-party collaborators whose code is not part of the repository
      (the [csv.Sniffer] heuristics, pandas' tabular parser, [describe],
      [memory_usage]) are section variables: every theorem holds for any
      behaviour of them, unless it names the contract it relies on. *)

From Stdlib Require Import ZArith NArith QArith Qround Qpower Lqa Lia.
From Stdlib.Strings Require Import Byte Ascii String.
From Equations Require Import Equations.
From stdpp Require Import base tactics option list numbers strings pretty sorting.


(** ** Exceptions *)

Inductive exn : Type :=
  | UnicodeDecodeError
  | OverflowError
  | ZeroDivisionError
  | CsvError (msg : string)          (* csv.Error *)
  | EmptyDataError (msg : string)    (* pandas.errors.EmptyDataError *)
  | ParserError (msg : string)       (* pandas.errors.ParserError *)
  | ValueError (msg : string)
  | OSError (msg : string)
  | OtherException (msg : string).

Inductive result (A : Type) : Type :=
  | Ok (a : A)
  | Raise (e : exn).
Arguments Ok {A} a.
Arguments Raise {A} e.

#[export] Instance result_ret : MRet result := fun _ a => Ok a.
#[export] Instance result_bind : MBind result := fun _ _ f r =>
  match r with Ok a => f a | Raise e => Raise e end.
#[export] Instance result_fmap : FMap result := fun _ _ f r =>
  match r with Ok a => Ok (f a) | Raise e => Raise e end.

(** [try: body except <handles>: handler] *)
Definition try_except {A} (body : result A) (handles : exn → bool)
    (handler : exn → result A) : result A :=
  match body with
  | Ok a => Ok a
  | Raise e => if handles e then handler e else Raise e
  end.

Definition is_UnicodeDecodeError (e : exn) : bool :=
  match e with UnicodeDecodeError => true | _ => false end.
(** Every member of [exn] derives from Python's [Exception]. *)
Definition is_Exception (e : exn) : bool := true.

Definition raises {A} (r : result A) : Prop := ∃ e, r = Raise e.

(** ** Text and bytes *)

Definition codepoint := N.
Definition str := list codepoint.
Definition bytes := list byte.
#[global] Typeclasses Transparent codepoint str bytes.

(** An ASCII literal as a Python [str]. *)
Definition lit (s : string) : str :=
  (λ b, Byte.to_N b) <$> list_byte_of_string s.

(** ** The codecs behind [bytes.decode]

    [bytes.decode("utf-8")] is strict: it accepts exactly the well-formed
    byte sequences of the Unicode standard (no overlong forms, no surrogates,
    nothing above U+10FFFF) and raises [UnicodeDecodeError] otherwise.
    [bytes.decode("latin-1")] maps every byte to the code point of the same
    number. *)
Module Codec.

Definition is_cont (x : N) : bool := ((0x80 <=? x) && (x <=? 0xBF))%N.
Definition is_surrogate (cp : N) : bool := ((0xD800 <=? cp) && (cp <=? 0xDFFF))%N.

Fixpoint utf8_decode (bs : bytes) : option str :=
  match bs with
  | [] => Some []
  | b0 :: t0 =>
    let x0 := Byte.to_N b0 in
    if (x0 <? 0x80)%N then cons x0 <$> utf8_decode t0
    else if (x0 <? 0xC2)%N then None
    else if (x0 <? 0xE0)%N then
      match t0 with
      | b1 :: t1 =>
        let x1 := Byte.to_N b1 in
        if is_cont x1
        then cons ((x0 - 0xC0) * 64 + (x1 - 0x80))%N <$> utf8_decode t1
        else None
      | _ => None
      end
    else if (x0 <? 0xF0)%N then
      match t0 with
      | b1 :: b2 :: t2 =>
        let x1 := Byte.to_N b1 in
        let x2 := Byte.to_N b2 in
        let cp := ((x0 - 0xE0) * 4096 + (x1 - 0x80) * 64 + (x2 - 0x80))%N in
        if is_cont x1 && is_cont x2 && (0x800 <=? cp)%N && negb (is_surrogate cp)
        then cons cp <$> utf8_decode t2
        else None
      | _ => None
      end
    else if (x0 <? 0xF8)%N then
      match t0 with
      | b1 :: b2 :: b3 :: t3 =>
        let x1 := Byte.to_N b1 in
        let x2 := Byte.to_N b2 in
        let x3 := Byte.to_N b3 in
        let cp := ((x0 - 0xF0) * 262144 + (x1 - 0x80) * 4096
                   + (x2 - 0x80) * 64 + (x3 - 0x80))%N in
        if is_cont x1 && is_cont x2 && is_cont x3
           && (0x10000 <=? cp)%N && (cp <=? 0x10FFFF)%N
        then cons cp <$> utf8_decode t3
        else None
      | _ => None
      end
    else None
  end.

Definition latin1_decode (bs : bytes) : str := (λ b, Byte.to_N b) <$> bs.

(** [data_bytes.decode(encoding)] for the two encodings the program names. *)
Definition decode (data_bytes : bytes) (encoding : string) : result str :=
  if String.eqb encoding "utf-8" then
    match utf8_decode data_bytes with
    | Some text => Ok text
    | None => Raise UnicodeDecodeError
    end
  else if String.eqb encoding "latin-1" then Ok (latin1_decode data_bytes)
  else Raise (OtherException "LookupError: unknown encoding").

(** Well-formed UTF-8 byte sequences (Unicode standard, table 3-7). *)
Definition between (lo hi : N) (b : byte) : Prop :=
  (lo <= Byte.to_N b <= hi)%N.

Inductive well_formed_utf8 : bytes → Prop :=
  | wf_end : well_formed_utf8 []
  | wf_ascii b0 rest :
      between 0x00 0x7F b0 →
      well_formed_utf8 rest → well_formed_utf8 (b0 :: rest)
  | wf_two b0 b1 rest :
      between 0xC2 0xDF b0 → between 0x80 0xBF b1 →
      well_formed_utf8 rest → well_formed_utf8 (b0 :: b1 :: rest)
  | wf_three_E0 b0 b1 b2 rest :
      between 0xE0 0xE0 b0 → between 0xA0 0xBF b1 → between 0x80 0xBF b2 →
      well_formed_utf8 rest → well_formed_utf8 (b0 :: b1 :: b2 :: rest)
  | wf_three_E1_EC b0 b1 b2 rest :
      between 0xE1 0xEC b0 → between 0x80 0xBF b1 → between 0x80 0xBF b2 →
      well_formed_utf8 rest → well_formed_utf8 (b0 :: b1 :: b2 :: rest)
  | wf_three_ED b0 b1 b2 rest :
      between 0xED 0xED b0 → between 0x80 0x9F b1 → between 0x80 0xBF b2 →
      well_formed_utf8 rest → well_formed_utf8 (b0 :: b1 :: b2 :: rest)
  | wf_three_EE_EF b0 b1 b2 rest :
      between 0xEE 0xEF b0 → between 0x80 0xBF b1 → between 0x80 0xBF b2 →
      well_formed_utf8 rest → well_formed_utf8 (b0 :: b1 :: b2 :: rest)
  | wf_four_F0 b0 b1 b2 b3 rest :
      between 0xF0 0xF0 b0 → between 0x90 0xBF b1 →
      between 0x80 0xBF b2 → between 0x80 0xBF b3 →
      well_formed_utf8 rest → well_formed_utf8 (b0 :: b1 :: b2 :: b3 :: rest)
  | wf_four_F1_F3 b0 b1 b2 b3 rest :
      between 0xF1 0xF3 b0 → between 0x80 0xBF b1 →
      between 0x80 0xBF b2 → between 0x80 0xBF b3 →
      well_formed_utf8 rest → well_formed_utf8 (b0 :: b1 :: b2 :: b3 :: rest)
  | wf_four_F4 b0 b1 b2 b3 rest :
      between 0xF4 0xF4 b0 → between 0x80 0x8F b1 →
      between 0x80 0xBF b2 → between 0x80 0xBF b3 →
      well_formed_utf8 rest → well_formed_utf8 (b0 :: b1 :: b2 :: b3 :: rest).

End Codec.

(** ** Python floats

    A finite binary64 value is the rational it denotes.  [round] is
    round-to-nearest, ties-to-even, onto the binary64 grid (53 significant
    bits, least exponent -1074); every float operation of the program is the
    exact operation followed by [round].  A rounded magnitude of 2^1024 or
    more has no finite binary64 value. *)
Module Float64.

(** Nearest integer, ties to even. *)
Definition rne (x : Q) : Z :=
  let f := Qfloor x in
  match (x - inject_Z f ?= 1 # 2)%Q with
  | Lt => f
  | Gt => (f + 1)%Z
  | Eq => if Z.even f then f else (f + 1)%Z
  end.

(** For [0 < x]: the [k] with [2^k <= x < 2^(k+1)]. *)
Definition ilog2 (x : Q) : Z :=
  let d := (Z.log2 (Qnum x) - Z.log2 (Zpos (Qden x)))%Z in
  if Qle_bool (2 ^ d) x then d else (d - 1)%Z.

(** Exponent of the unit in the last place of the binade of [x]. *)
Definition ulp_exponent (x : Q) : Z := Z.max (ilog2 x - 52) (-1074).

Definition round_pos (x : Q) : Q :=
  let e := ulp_exponent x in
  (inject_Z (rne (x / 2 ^ e)) * 2 ^ e)%Q.

Definition round (x : Q) : Q :=
  match Qnum x with
  | Z0 => 0%Q
  | Zpos _ => round_pos x
  | Zneg _ => (- round_pos (- x))%Q
  end.

Definition overflows (x : Q) : bool :=
  Qle_bool (2 ^ 1024) x || Qle_bool x (- 2 ^ 1024).

(** [float(num)] for a Python [int]: correctly rounded, [OverflowError]
    ("int too large to convert to float") when out of range. *)
Definition of_int (num : Z) : result Q :=
  let f := round (inject_Z num) in
  if overflows f then Raise OverflowError else Ok f.

(** [a / b] for two Python [int]s: true division, correctly rounded. *)
Definition int_truediv (a b : Z) : result Q :=
  if (b =? 0)%Z then Raise ZeroDivisionError
  else
    let f := round (inject_Z a / inject_Z b) in
    if overflows f then Raise OverflowError else Ok f.

(** [x * y] and [x / y] on floats whose result is in range. *)
Definition mul (x y : Q) : Q := round (x * y).
Definition div (x y : Q) : Q := round (x / y).

(** [x >= y] *)
Definition ge (x y : Q) : bool := Qle_bool y x.

Definition two_digits (n : Z) : string :=
  pretty (n / 10)%Z +:+ pretty (n mod 10)%Z.

(** [f"{x:.2f}"]: the exact value of [x] rounded half-even to two decimals. *)
Definition format_2f (x : Q) : string :=
  let n := Z.abs (rne (x * 100)) in
  (if Qle_bool 0 x then "" else "-")
  +:+ pretty (n / 100)%Z +:+ "." +:+ two_digits (n mod 100)%Z.

End Float64.

(** ** [human_bytes] (app.py 51-61, analyze_csv.py 36-43; same text) *)

Definition symbols : list string := ["B"; "KB"; "MB"; "GB"; "TB"].

Definition inspect {A : Type} (a : A) : {b : A | a = b} := exist _ a eq_refl.

(** The loop state is [(f, i)]. *)
Definition human_bytes_cond (s : Q * nat) : bool :=
  Float64.ge s.1 1024 && (s.2 <? length symbols - 1)%nat.

Definition human_bytes_body (s : Q * nat) : Q * nat :=
  (Float64.div s.1 1024, (s.2 + 1)%nat).

(** [while f >= 1024 and i < len(symbols) - 1: f /= 1024.0; i += 1] *)
Equations? human_bytes_loop (s : Q * nat) : Q * nat
  by wf (length symbols - 1 - s.2)%nat lt :=
human_bytes_loop s with inspect (human_bytes_cond s) := {
  | exist _ true Hcond => human_bytes_loop (human_bytes_body s)
  | exist _ false Hcond => s }.
Proof.
  unfold human_bytes_cond in Hcond.
  apply andb_prop in Hcond as [_ Hi]. apply Nat.ltb_lt in Hi.
  simpl in *. lia.
Qed.

Definition human_bytes (num : Z) : result string :=
  let i := 0%nat in
  f ← Float64.of_int num;
  let s := human_bytes_loop (f, i) in
  mret (Float64.format_2f s.1 +:+ " " +:+ symbols !!! s.2).

(** ** Tables

    A pandas [DataFrame] as the program sees it: named, typed columns, each
    an array of cells.  Frames are only ever produced by [read_csv], which
    attaches the default positional index and raises instead of returning a
    frame without columns, so the index carries nothing beyond the common
    length of the columns.  The payload [V] of a present cell is whatever
    pandas stored there; the program only tests cells for missingness and
    rows for equality. *)

Inductive Dtype : Type := int64 | float64 | bool_ | object_ | datetime64.

#[export] Instance Dtype_eq_dec : EqDecision Dtype.
Proof. solve_decision. Defined.

(** [str(dt)] *)
Definition dtype_name (dt : Dtype) : string :=
  match dt with
  | int64 => "int64"
  | float64 => "float64"
  | bool_ => "bool"
  | object_ => "object"
  | datetime64 => "datetime64[ns]"
  end.

(** Members of [np.number]. *)
Definition is_number (dt : Dtype) : bool :=
  match dt with int64 | float64 => true | _ => false end.

Section Frames.
Context {V : Type} `{EqDecision V}.

(** [None] is the missing marker (NaN / NA). *)
Definition Cell : Type := option V.
#[global] Typeclasses Transparent Cell.

Record Column : Type := mkColumn {
  col_name : str;
  col_dtype : Dtype;
  col_cells : list Cell
}.

Record DataFrame : Type := mkDataFrame { df_columns : list Column }.

#[export] Instance Column_eq_dec : EqDecision Column.
Proof. solve_decision. Defined.
#[export] Instance DataFrame_eq_dec : EqDecision DataFrame.
Proof. solve_decision. Defined.

(** [len(df)] *)
Definition df_len (df : DataFrame) : nat :=
  match df_columns df with
  | [] => 0
  | c :: _ => length (col_cells c)
  end.

(** [df.shape[1]] *)
Definition df_width (df : DataFrame) : nat := length (df_columns df).

(** Every column holds one cell per row. *)
Definition well_formed (df : DataFrame) : Prop :=
  Forall (λ c, length (col_cells c) = df_len df) (df_columns df).

(** [df.columns], [df.dtypes] *)
Definition df_names (df : DataFrame) : list str := col_name <$> df_columns df.
Definition df_dtypes (df : DataFrame) : list Dtype := col_dtype <$> df_columns df.

(** The row at position [i], and all rows in order. *)
Definition df_row (df : DataFrame) (i : nat) : list Cell :=
  (λ c, col_cells c !!! i) <$> df_columns df.
Definition df_rows (df : DataFrame) : list (list Cell) :=
  df_row df <$> seq 0 (df_len df).

Definition isna (c : Cell) : bool :=
  match c with None => true | Some _ => false end.

(** [series.sum()] of a boolean series. *)
Definition count_true (mask : list bool) : nat := length (filter (λ b, b = true) mask).

(** [df.isna().sum()]: per column, the number of missing cells. *)
Definition isna_sum (df : DataFrame) : list (str * nat) :=
  (λ c, (col_name c, count_true (isna <$> col_cells c))) <$> df_columns df.

(** [df.duplicated()] (default [keep="first"]): scanning the rows in order,
    a row is marked when an equal row has been seen before; missing cells
    compare equal to each other. *)
Fixpoint duplicated_from (seen rows : list (list Cell)) : list bool :=
  match rows with
  | [] => []
  | r :: rest => bool_decide (r ∈ seen) :: duplicated_from (r :: seen) rest
  end.
Definition duplicated (df : DataFrame) : list bool :=
  duplicated_from [] (df_rows df).

(** Positions at which a boolean series is [True]. *)
Definition true_positions (mask : list bool) : list nat :=
  filter (λ i, mask !! i = Some true) (seq 0 (length mask)).

(** The frame made of the rows at the given positions, in that order. *)
Definition take_rows (positions : list nat) (df : DataFrame) : DataFrame :=
  mkDataFrame
    ((λ c, mkColumn (col_name c) (col_dtype c) ((λ i, col_cells c !!! i) <$> positions))
       <$> df_columns df).

(** [df[mask]] for a boolean series aligned with the rows of [df]. *)
Definition getitem_mask (df : DataFrame) (mask : list bool) : DataFrame :=
  take_rows (true_positions mask) df.

(** [df.head(n)] *)
Definition head (n : nat) (df : DataFrame) : DataFrame :=
  mkDataFrame
    ((λ c, mkColumn (col_name c) (col_dtype c) (take n (col_cells c)))
       <$> df_columns df).

(** [df.select_dtypes(include=[np.number])] *)
Definition select_dtypes_number (df : DataFrame) : DataFrame :=
  mkDataFrame (filter (λ c, is_number (col_dtype c) = true) (df_columns df)).

(** [df.empty]: some axis has length zero. *)
Definition df_empty (df : DataFrame) : bool :=
  (df_len df =? 0)%nat || (df_width df =? 0)%nat.

End Frames.
Arguments Cell V : clear implicits.
Arguments Column V : clear implicits.
Arguments DataFrame V : clear implicits.

(** ** The pipeline *)

(** What [csv.Sniffer().sniff] returns: a dialect, of which the program reads
    the delimiter only. *)
Record Dialect : Type := mkDialect { delimiter : str }.

(** The [delimiters=] argument: [",", ";", "\t", "|", ":"]. *)
Definition delimiters : list str :=
  [lit ","; lit ";"; [9%N]; lit "|"; lit ":"].

Inductive Engine : Type := engine_c | engine_python.

(** [bytes.strip() == b""]: only ASCII whitespace. *)
Definition is_space (b : byte) : bool :=
  let x := Byte.to_N b in
  ((x =? 32) || (9 <=? x) && (x <=? 13))%N.
Definition is_blank (data_bytes : bytes) : bool := forallb is_space data_bytes.

(** The prefix handed to the sniffer: [text[:10000]]. *)
Definition sample_size : nat := Z.to_nat 10000.

(** [round(x, 2)] on a float. *)
Definition round2 (x : Q) : Q :=
  Float64.round (inject_Z (Float64.rne (x * 100)) / 100).

Section Pipeline.
Context {V : Type} `{EqDecision V}.

(** [csv.Sniffer().sniff(sample, delimiters)] *)
Variable Sniffer_sniff : str → list str → result Dialect.
(** The tabular parser behind [pd.read_csv(io.StringIO(text), sep, engine="python")]:
    tokenising (with its own separator detection when [sep] is [None]),
    missing-value marking and type inference. *)
Variable python_parser : str → option str → result (DataFrame V).
Variable c_parser : str → option str → bool → result (DataFrame V).
(** [df.describe(include=[np.number])], [.round(n)] and the cell formatter
    of the web surface. *)
Variable Summary : Type.
Variable describe_number : DataFrame V → Summary.
Variable summary_round : nat → Summary → Summary.
Variable summary_fmt_num : Summary → Summary.
(** [df.memory_usage(deep=True)]: bytes for the index and for each column. *)
Variable memory_usage_deep : DataFrame V → list Z.
(** [path.read_bytes()] *)
Variable read_bytes : string → result bytes.

(** app.py 63-71 and analyze_csv.py 15-20 (same text). *)
Definition sniff_delimiter (sample_text : str) : result str :=
  try_except
    (dialect ← Sniffer_sniff sample_text delimiters;
     mret (delimiter dialect))
    is_Exception
    (λ _, mret (lit ",")).

(** [pd.read_csv]: the options are validated before any parsing; an option
    of the C parser that differs from its default ([low_memory] defaults to
    [True]) is refused by the python engine -- the note at app.py 90. *)
Definition read_csv (text : str) (sep : option str) (engine : Engine)
    (low_memory : bool) : result (DataFrame V) :=
  match engine with
  | engine_python =>
    if low_memory then python_parser text sep
    else Raise (ValueError
      "The 'low_memory' option is not supported with the 'python' engine")
  | engine_c => c_parser text sep low_memory
  end.

(** app.py 73-92 *)
Definition parse_csv_bytes (data_bytes : bytes)
    : result (DataFrame V * string * str) :=
  let encoding_used := "utf-8" in
  '(text, encoding_used) ←
    try_except
      (text ← Codec.decode data_bytes "utf-8"; mret (text, encoding_used))
      is_UnicodeDecodeError
      (λ _, text ← Codec.decode data_bytes "latin-1"; mret (text, "latin-1"));
  let sample := take sample_size text in
  detected_delimiter ← sniff_delimiter sample;
  df ← read_csv text None engine_python true;
  mret (df, encoding_used, detected_delimiter).

(** analyze_csv.py 23-33 *)
Definition read_csv_with_fallback (path : string)
    : result (DataFrame V * string * str) :=
  data_bytes ← read_bytes path;
  let encoding_used := "utf-8" in
  '(text, encoding_used) ←
    try_except
      (text ← Codec.decode data_bytes "utf-8"; mret (text, encoding_used))
      is_UnicodeDecodeError
      (λ _, text ← Codec.decode data_bytes "latin-1"; mret (text, "latin-1"));
  detected_delimiter ← sniff_delimiter (take sample_size text);
  df ← read_csv text None engine_python false;
  mret (df, encoding_used, detected_delimiter).

(** The dictionary [compute_stats] returns. *)
Record Stats : Type := mkStats {
  rows : nat;
  cols : nat;
  dtypes_df : list (str * string);
  missing_per_col_df : list (str * nat);
  overall_missing : Z;
  overall_missing_pct : Q;
  duplicates_count : Z;
  dup_preview_df : DataFrame V;
  has_numeric : bool;
  numeric_summary_df : option Summary;
  preview_df : DataFrame V;
  mem_usage_bytes : Z
}.

(** [series.sum()] of a series of counts / of byte sizes. *)
Definition sum_nat (l : list nat) : Z := Z.of_nat (foldr plus 0%nat l).
Definition sum_Z (l : list Z) : Z := foldr Z.add 0%Z l.

(** app.py 94-149 *)
Definition compute_stats (df : DataFrame V) : result Stats :=
  let rows := df_len df in
  let cols := df_width df in
  let dtypes_df := zip (df_names df) (dtype_name <$> df_dtypes df) in
  let missing_per_col := isna_sum df in
  let total_cells := (rows * cols)%nat in
  let overall_missing := sum_nat (missing_per_col.*2) in
  overall_missing_pct ←
    (if (0 <? total_cells)%nat
     then q ← Float64.int_truediv overall_missing (Z.of_nat total_cells);
          mret (Float64.mul q 100)
     else mret 0%Q);
  let duplicates_count := Z.of_nat (count_true (duplicated df)) in
  let dup_preview_df := head 10 (getitem_mask df (duplicated df)) in
  let numeric_df := select_dtypes_number df in
  let has_numeric := negb (df_empty numeric_df) in
  let numeric_summary_df :=
    if has_numeric
    then Some (summary_fmt_num (summary_round 2 (describe_number df)))
    else None in
  let preview_df := head 10 df in
  let mem_usage_bytes := sum_Z (memory_usage_deep df) in
  mret (mkStats rows cols dtypes_df missing_per_col overall_missing
          overall_missing_pct duplicates_count dup_preview_df has_numeric
          numeric_summary_df preview_df mem_usage_bytes).

(** What the [/analyze] route renders. *)
Record ResultsContext : Type := mkResultsContext {
  ctx_filename : string;
  ctx_encoding_used : string;
  ctx_detected_delimiter : str;
  ctx_stats : Stats;
  ctx_overall_missing_pct : Q;
  ctx_dup_preview : option (DataFrame V);
  ctx_numeric_summary : option Summary;
  ctx_mem_usage_human : string
}.

Inductive Response : Type :=
  | index_page (flash : string) (status : nat)
  | results_page (context : ResultsContext) (status : nat).

(** app.py 182-226: the [try] block of the route and its handlers, from the
    point where the upload has been accepted under [filename].  The HTML
    fragments of the context are renderings of the fields kept here. *)
Definition analyze (filename : string) (data_bytes : bytes) : Response :=
  let body : result Response :=
    if is_blank data_bytes
    then mret (index_page "Uploaded file is empty." 400)
    else
      '(df, encoding_used, detected_delimiter) ← parse_csv_bytes data_bytes;
      stats ← compute_stats df;
      mem_usage_human ← human_bytes (mem_usage_bytes stats);
      mret (results_page
              (mkResultsContext filename encoding_used detected_delimiter stats
                 (round2 (overall_missing_pct stats))
                 (if (0 <? duplicates_count stats)%Z
                  then Some (dup_preview_df stats) else None)
                 (if has_numeric stats then numeric_summary_df stats else None)
                 mem_usage_human)
              200) in
  match body with
  | Ok response => response
  | Raise (EmptyDataError _) =>
    index_page "The CSV appears to be empty or has no columns." 400
  | Raise (ParserError msg) =>
    index_page ("Failed to parse CSV: " +:+ msg) 400
  | Raise UnicodeDecodeError =>
    index_page "Failed to decode the file. Try saving as UTF-8 or Latin-1." 400
  | Raise _ =>
    index_page "An unexpected error occurred while analyzing the file." 500
  end.

(** What [main] prints, field by field. *)
Record Report : Type := mkReport {
  rep_encoding : string;
  rep_detected_delimiter : str;
  rep_rows : nat;
  rep_cols : nat;
  rep_dtypes : list (str * string);
  rep_missing_per_col : list (str * nat);
  rep_overall_missing : Z;
  rep_overall_missing_pct : Q;
  rep_duplicates_count : Z;
  rep_dup_preview : option (DataFrame V);
  rep_numeric_summary : option Summary;
  rep_preview : DataFrame V;
  rep_mem_usage_bytes : Z;
  rep_mem_usage_human : string
}.

(** analyze_csv.py 53-102: what [main] computes and prints once the file
    has been read. *)
Definition main_report (ingested : DataFrame V * string * str) : result Report :=
  let '(df, encoding_used, detected_delimiter) := ingested in
  let rows := df_len df in
  let cols := df_width df in
  let dtypes_df := zip (df_names df) (dtype_name <$> df_dtypes df) in
  let missing_per_col := isna_sum df in
  let total_cells := (rows * cols)%nat in
  let overall_missing := sum_nat (missing_per_col.*2) in
  overall_missing_pct ←
    (if (0 <? total_cells)%nat
     then q ← Float64.int_truediv overall_missing (Z.of_nat total_cells);
          mret (Float64.mul q 100)
     else mret 0%Q);
  let duplicates_count := Z.of_nat (count_true (duplicated df)) in
  let dup_preview_df := head 10 (getitem_mask df (duplicated df)) in
  let numeric_df := select_dtypes_number df in
  let has_numeric := negb (df_empty numeric_df) in
  let numeric_summary_df :=
    if has_numeric then Some (summary_round 3 (describe_number df)) else None in
  let preview_df := head 10 df in
  let mem_usage_bytes := sum_Z (memory_usage_deep df) in
  mem_usage_human ← human_bytes mem_usage_bytes;
  mret (mkReport encoding_used detected_delimiter rows cols dtypes_df
          missing_per_col overall_missing overall_missing_pct duplicates_count
          (if (0 <? duplicates_count)%Z then Some dup_preview_df else None)
          numeric_summary_df preview_df mem_usage_bytes mem_usage_human).

(** analyze_csv.py 46-102 *)
Definition main (csv_path : string) : result Report :=
  ingested ← read_csv_with_fallback csv_path;
  main_report ingested.

End Pipeline.

Arguments rows {V Summary} _.
Arguments cols {V Summary} _.
Arguments dtypes_df {V Summary} _.
Arguments missing_per_col_df {V Summary} _.
Arguments overall_missing {V Summary} _.
Arguments overall_missing_pct {V Summary} _.
Arguments duplicates_count {V Summary} _.
Arguments dup_preview_df {V Summary} _.
Arguments has_numeric {V Summary} _.
Arguments numeric_summary_df {V Summary} _.
Arguments preview_df {V Summary} _.
Arguments mem_usage_bytes {V Summary} _.
Arguments ctx_filename {V Summary} _.
Arguments ctx_encoding_used {V Summary} _.
Arguments ctx_detected_delimiter {V Summary} _.
Arguments ctx_stats {V Summary} _.
Arguments ctx_overall_missing_pct {V Summary} _.
Arguments ctx_dup_preview {V Summary} _.
Arguments ctx_numeric_summary {V Summary} _.
Arguments ctx_mem_usage_human {V Summary} _.
Arguments index_page {V Summary} flash status.
Arguments results_page {V Summary} context status.
Arguments rep_encoding {V Summary} _.
Arguments rep_detected_delimiter {V Summary} _.
Arguments rep_rows {V Summary} _.
Arguments rep_cols {V Summary} _.
Arguments rep_dtypes {V Summary} _.
Arguments rep_missing_per_col {V Summary} _.
Arguments rep_overall_missing {V Summary} _.
Arguments rep_overall_missing_pct {V Summary} _.
Arguments rep_duplicates_count {V Summary} _.
Arguments rep_dup_preview {V Summary} _.
Arguments rep_numeric_summary {V Summary} _.
Arguments rep_preview {V Summary} _.
Arguments rep_mem_usage_bytes {V Summary} _.
Arguments rep_mem_usage_human {V Summary} _.
#[global] Typeclasses Transparent Cell.

(** ** Stand-ins for the collaborators

    Small executable collaborators on which the pipeline can be run.  They
    obey what the properties below assume of the libraries and nothing more:
    the sniffer answers with the first candidate that occurs in the sample,
    the reader splits comma-separated lines and keeps every field as text. *)

Definition first_candidate_sniffer (sample : str) (candidates : list str)
    : result Dialect :=
  match
    List.find (λ d, match d with
                    | [c] => bool_decide (c ∈ sample)
                    | _ => false
                    end) candidates
  with
  | Some d => Ok (mkDialect d)
  | None => Raise (CsvError "Could not determine delimiter")
  end.

Fixpoint split_on (sep : codepoint) (s : str) : list str :=
  match s with
  | [] => [[]]
  | c :: rest =>
    if (c =? sep)%N then [] :: split_on sep rest
    else match split_on sep rest with
         | field :: fields => (c :: field) :: fields
         | [] => [[c]]
         end
  end.

Definition text_cell (field : str) : Cell str :=
  match field with [] => None | _ => Some field end.

(** Lines are separated by LF, blank lines are skipped, the first line is
    the header; a record whose field count differs from the header's is a
    parse error, and a text without any line has no columns to parse. *)
Definition comma_reader (text : str) (sep : option str)
    : result (DataFrame str) :=
  let lines := filter (λ l, l ≠ []) (split_on 10%N text) in
  match split_on 44%N <$> lines with
  | [] => Raise (EmptyDataError "No columns to parse from file")
  | header :: records =>
    if forallb (λ r, length r =? length header)%nat records
    then Ok (mkDataFrame
               (imap (λ j name,
                        mkColumn name object_
                          ((λ r, text_cell (r !!! j)) <$> records))
                     header))
    else Raise (ParserError "Expected a different number of fields")
  end.

Definition no_c_parser {V : Type} (text : str) (sep : option str)
    (low_memory : bool) : result (DataFrame V) :=
  Raise (OtherException "the C engine is never selected").

(** A file system holding one file. *)
Definition single_file (name : string) (content : bytes) (path : string)
    : result bytes :=
  if String.eqb path name then Ok content
  else Raise (OSError "No such file or directory").

(** Byte strings for the examples. *)
Definition b (s : string) : bytes := list_byte_of_string s.
Definition LF : string := String (ascii_of_nat 10) EmptyString.

(** The table of "a,b\n1,2\n1,2\n". *)
Definition twice_the_same_row : DataFrame Z :=
  mkDataFrame [mkColumn (lit "a") int64 [Some 1%Z; Some 1%Z];
               mkColumn (lit "b") int64 [Some 2%Z; Some 2%Z]].

(** A column holding 1, a missing cell and 3, next to a full column. *)
Definition one_missing_cell : DataFrame Z :=
  mkDataFrame [mkColumn (lit "x") float64 [Some 1%Z; None; Some 3%Z];
               mkColumn (lit "y") int64 [Some 4%Z; Some 5%Z; Some 6%Z]].

(** ** The upload route and its configuration

    File names that reach [allowed_file] have been through werkzeug's
    [secure_filename], which returns ASCII text; they are Rocq strings, that
    is, text whose code points are below 256. *)

(** [ALLOWED_EXTENSIONS = {"csv"}] *)
Definition ALLOWED_EXTENSIONS : list string := ["csv"].

(** [str.lower()], character by character, on code points below 256: the
    letters A-Z and the capital letters of the Latin-1 block (192-222 but for
    the multiplication sign, 215) move up by 32. *)
Definition lower_char (c : ascii) : ascii :=
  let n := nat_of_ascii c in
  if ((65 <=? n) && (n <=? 90) || (192 <=? n) && (n <=? 222) && negb (n =? 215))%nat
  then ascii_of_nat (n + 32)
  else c.
Definition lower (s : string) : string :=
  string_of_list_ascii (lower_char <$> list_ascii_of_string s).

(** [s.rsplit(sep, 1)] for a separator of one character: the text before
    the last separator and the text after it, or the whole text alone. *)
Fixpoint rsplit1 (sep : ascii) (s : list ascii) : list (list ascii) :=
  match s with
  | [] => [[]]
  | c :: rest =>
    match rsplit1 sep rest with
    | [before; after] => [c :: before; after]
    | _ => if decide (c = sep) then [[]; rest] else [c :: rest]
    end
  end.

(** [parts[i]] *)
Definition getitem {A : Type} (parts : list A) (i : nat) : result A :=
  match parts !! i with
  | Some x => Ok x
  | None => Raise (OtherException "IndexError: list index out of range")
  end.

(** app.py 48-49 *)
Definition allowed_file (filename : string) : result bool :=
  if bool_decide ("."%char ∈ list_ascii_of_string filename)
  then
    ext ← getitem (rsplit1 "."%char (list_ascii_of_string filename)) 1;
    mret (bool_decide (lower (string_of_list_ascii ext) ∈ ALLOWED_EXTENSIONS))
  else mret false.

(** An uploaded file as the route uses it: the client's file name and the
    bytes [file.read()] returns. *)
Record FileStorage : Type := mkFileStorage {
  fs_filename : str;
  fs_content : bytes
}.

(** [os.environ] and [request.files] are read-only mappings here: a key is
    looked up, nothing is stored. *)
Definition Mapping (A : Type) : Type := string → option A.

(** [os.getenv(key, default)] *)
Definition getenv (environ : Mapping string) (key fallback : string) : string :=
  default fallback (environ key).

(** [MAX_CONTENT_LENGTH // (1024 * 1024)], the [max_size_mb] of the pages. *)
Definition max_size_mb (max_content_length : Z) : Z :=
  (max_content_length / (1024 * 1024))%Z.

Section Routes.
Context {V : Type} `{EqDecision V}.
Variable Sniffer_sniff : str → list str → result Dialect.
Variable python_parser : str → option str → result (DataFrame V).
Variable c_parser : str → option str → bool → result (DataFrame V).
Variable Summary : Type.
Variable describe_number : DataFrame V → Summary.
Variable summary_round : nat → Summary → Summary.
Variable summary_fmt_num : Summary → Summary.
Variable memory_usage_deep : DataFrame V → list Z.
(** werkzeug's [secure_filename] *)
Variable secure_filename : str → string.
(** Python's [int(text)] *)
Variable int_of_str : string → result Z.

(** app.py 17-18 *)
Definition MAX_CONTENT_LENGTH_MB (environ : Mapping string) : result Z :=
  int_of_str (getenv environ "MAX_CONTENT_LENGTH_MB"
                (getenv environ "UPLOAD_MAX_MB" "10")).
Definition MAX_CONTENT_LENGTH (environ : Mapping string) : result Z :=
  mb ← MAX_CONTENT_LENGTH_MB environ;
  mret (mb * 1024 * 1024)%Z.

(** app.py 166-226: the whole [/analyze] handler on [request.files]; its
    [try] block is [analyze]. *)
Definition analyze_route (files : Mapping FileStorage)
    : result (@Response V Summary) :=
  match files "file" with
  | None => mret (index_page "No file part in the request." 400)
  | Some file =>
    if decide (fs_filename file = [])
    then mret (index_page "No selected file." 400)
    else
      let filename := secure_filename (fs_filename file) in
      allowed ← allowed_file filename;
      if negb allowed
      then mret (index_page "Invalid file type. Only .csv files are allowed." 400)
      else mret (analyze Sniffer_sniff python_parser c_parser Summary
                   describe_number summary_round summary_fmt_num
                   memory_usage_deep filename (fs_content file))
  end.

End Routes.

(** The HTTP status of a response. *)
Definition status {V Summary : Type} (r : @Response V Summary) : nat :=
  match r with
  | index_page _ code => code
  | results_page _ code => code
  end.

(** The spellings of the extension that [lower] maps to "csv". *)
Definition csv_spellings : list string :=
  ["csv"; "csV"; "cSv"; "cSV"; "Csv"; "CsV"; "CSv"; "CSV"].

(** * Properties *)

(** ** Decoding *)

Lemma fmap_cons_is_Some {A} (x : A) (o : option (list A)) :
  is_Some (cons x <$> o) ↔ is_Some o.
Proof. rewrite fmap_is_Some. reflexivity. Qed.

Ltac byte_tests :=
  unfold Codec.between, Codec.is_cont, Codec.is_surrogate in *;
  repeat match goal with
  | |- context [N.ltb ?a ?b] => destruct (N.ltb_spec a b)
  | |- context [N.leb ?a ?b] => destruct (N.leb_spec a b)
  | H : context [N.ltb ?a ?b] |- _ => destruct (N.ltb_spec a b)
  | H : context [N.leb ?a ?b] |- _ => destruct (N.leb_spec a b)
  end;
  simpl in *.

(** Settles the next comparison of the goal from the bounds in context. *)
Ltac decide_test :=
  match goal with
  | |- context [N.ltb ?a ?b] =>
    first [rewrite (proj2 (N.ltb_lt a b)) by lia
          |rewrite (proj2 (N.ltb_ge a b)) by lia]
  | |- context [N.leb ?a ?b] =>
    first [rewrite (proj2 (N.leb_le a b)) by lia
          |rewrite (proj2 (N.leb_gt a b)) by lia]
  end; cbn [andb negb].

Lemma utf8_decode_well_formed (bs : bytes) :
  Codec.well_formed_utf8 bs → is_Some (Codec.utf8_decode bs).
Proof.
  induction 1 as [|b0 rest Hb0 _ IH|b0 b1 rest Hb0 Hb1 _ IH
    |b0 b1 b2 rest Hb0 Hb1 Hb2 _ IH|b0 b1 b2 rest Hb0 Hb1 Hb2 _ IH
    |b0 b1 b2 rest Hb0 Hb1 Hb2 _ IH|b0 b1 b2 rest Hb0 Hb1 Hb2 _ IH
    |b0 b1 b2 b3 rest Hb0 Hb1 Hb2 Hb3 _ IH|b0 b1 b2 b3 rest Hb0 Hb1 Hb2 Hb3 _ IH
    |b0 b1 b2 b3 rest Hb0 Hb1 Hb2 Hb3 _ IH];
    [by eexists|..];
    cbn [Codec.utf8_decode];
    unfold Codec.between, Codec.is_cont, Codec.is_surrogate in *;
    repeat decide_test; by apply fmap_cons_is_Some.
Qed.

Lemma utf8_decode_only_well_formed (n : nat) :
  ∀ bs : bytes, length bs ≤ n →
    is_Some (Codec.utf8_decode bs) → Codec.well_formed_utf8 bs.
Proof.
  induction n as [|n IH]; intros bs Hlen Hdec.
  { destruct bs; [constructor | simpl in Hlen; lia]. }
  destruct bs as [|b0 t0]; [constructor|].
  pose proof (Byte.to_N_bounded b0) as B0.
  cbn [Codec.utf8_decode] in Hdec. simpl in Hlen.
  destruct (N.ltb_spec (Byte.to_N b0) 0x80).
  { apply fmap_cons_is_Some in Hdec. apply Codec.wf_ascii.
    - unfold Codec.between; lia.
    - apply IH; [lia | done]. }
  destruct (N.ltb_spec (Byte.to_N b0) 0xC2); [by destruct Hdec|].
  destruct (N.ltb_spec (Byte.to_N b0) 0xE0).
  { destruct t0 as [|b1 t1]; [by destruct Hdec|].
    destruct (Codec.is_cont (Byte.to_N b1)) eqn:C1; [|by destruct Hdec].
    apply fmap_cons_is_Some in Hdec. simpl in Hlen.
    apply Codec.wf_two; [| |apply IH; [lia|done]]; byte_tests; lia. }
  destruct (N.ltb_spec (Byte.to_N b0) 0xF0).
  { destruct t0 as [|b1 [|b2 t2]]; try by destruct Hdec.
    match type of Hdec with is_Some (if ?c then _ else _) =>
      destruct c eqn:C; [|by destruct Hdec] end.
    apply fmap_cons_is_Some in Hdec. simpl in Hlen.
    assert (Codec.well_formed_utf8 t2) by (apply IH; [lia|done]).
    pose proof (Byte.to_N_bounded b1). pose proof (Byte.to_N_bounded b2).
    repeat (apply andb_prop in C as [C ?]).
    byte_tests; try discriminate;
      (assert (Byte.to_N b0 = 0xE0 ∨ 0xE1 ≤ Byte.to_N b0 ≤ 0xEC
               ∨ Byte.to_N b0 = 0xED ∨ 0xEE ≤ Byte.to_N b0 ≤ 0xEF)%N
         as [?|[?|[?|?]]] by lia;
       [apply Codec.wf_three_E0 | apply Codec.wf_three_E1_EC
       |apply Codec.wf_three_ED | apply Codec.wf_three_EE_EF];
       unfold Codec.between; try done; lia). }
  destruct (N.ltb_spec (Byte.to_N b0) 0xF8); [|by destruct Hdec].
  destruct t0 as [|b1 [|b2 [|b3 t3]]]; try by destruct Hdec.
  match type of Hdec with is_Some (if ?c then _ else _) =>
    destruct c eqn:C; [|by destruct Hdec] end.
  apply fmap_cons_is_Some in Hdec. simpl in Hlen.
  assert (Codec.well_formed_utf8 t3) by (apply IH; [lia|done]).
  pose proof (Byte.to_N_bounded b1). pose proof (Byte.to_N_bounded b2).
  pose proof (Byte.to_N_bounded b3).
  repeat (apply andb_prop in C as [C ?]).
  byte_tests; try discriminate;
    (assert (Byte.to_N b0 = 0xF0 ∨ 0xF1 ≤ Byte.to_N b0 ≤ 0xF3
             ∨ Byte.to_N b0 = 0xF4)%N as [?|[?|?]] by lia;
     [apply Codec.wf_four_F0 | apply Codec.wf_four_F1_F3 | apply Codec.wf_four_F4];
     unfold Codec.between; try done; lia).
Qed.

Lemma utf8_decode_iff (bs : bytes) :
  is_Some (Codec.utf8_decode bs) ↔ Codec.well_formed_utf8 bs.
Proof.
  split.
  - apply (utf8_decode_only_well_formed (length bs)). lia.
  - apply utf8_decode_well_formed.
Qed.

(** "caf\xc3\xa9" is UTF-8; "caf\xe9" is not and decodes as Latin-1; a
    surrogate and an overlong form are rejected. *)
Example utf8_decode_two_byte_sequence :
  Codec.decode [x63; x61; x66; xc3; xa9] "utf-8" = Ok [99; 97; 102; 233]%N.
Proof. reflexivity. Qed.

Example utf8_decode_rejects_latin1_byte :
  Codec.decode [x63; x61; x66; xe9] "utf-8" = Raise UnicodeDecodeError
  ∧ Codec.decode [x63; x61; x66; xe9] "latin-1" = Ok [99; 97; 102; 233]%N.
Proof. split; reflexivity. Qed.

Example utf8_decode_rejects_surrogate_and_overlong :
  Codec.decode [xed; xa0; x80] "utf-8" = Raise UnicodeDecodeError
  ∧ Codec.decode [xc0; x80] "utf-8" = Raise UnicodeDecodeError
  ∧ Codec.decode [xf4; x90; x80; x80] "utf-8" = Raise UnicodeDecodeError.
Proof. split_and!; reflexivity. Qed.

Lemma decode_block (data_bytes : bytes) :
  try_except
    (text ← Codec.decode data_bytes "utf-8"; mret (text, "utf-8"))
    is_UnicodeDecodeError
    (λ _, text ← Codec.decode data_bytes "latin-1"; mret (text, "latin-1"))
  = Ok (match Codec.utf8_decode data_bytes with
        | Some text => (text, "utf-8")
        | None => (Codec.latin1_decode data_bytes, "latin-1")
        end).
Proof.
  unfold Codec.decode. simpl.
  destruct (Codec.utf8_decode data_bytes); reflexivity.
Qed.

Lemma sniff_delimiter_returns (sniff : str → list str → result Dialect)
    (sample_text : str) :
  sniff_delimiter sniff sample_text =
    Ok (match sniff sample_text delimiters with
        | Ok dialect => delimiter dialect
        | Raise _ => lit ","
        end).
Proof.
  unfold sniff_delimiter.
  destruct (sniff sample_text delimiters); reflexivity.
Qed.

Lemma ingestion_after_decoding (data_bytes : bytes) :
  ∃ (text : str) (encoding_used : string),
    (Codec.well_formed_utf8 data_bytes
       ∧ Codec.decode data_bytes "utf-8" = Ok text
       ∧ encoding_used = "utf-8"
     ∨ ¬ Codec.well_formed_utf8 data_bytes
       ∧ Codec.decode data_bytes "utf-8" = Raise UnicodeDecodeError
       ∧ Codec.decode data_bytes "latin-1" = Ok text
       ∧ encoding_used = "latin-1")
    ∧ (encoding_used = "utf-8" ↔ Codec.well_formed_utf8 data_bytes)
    ∧ (encoding_used = "latin-1" ↔ ¬ Codec.well_formed_utf8 data_bytes)
    ∧ (∀ (V : Type) sniff (parser : str → option str → result (DataFrame V))
         cparser,
         parse_csv_bytes sniff parser cparser data_bytes =
           (detected_delimiter ← sniff_delimiter sniff (take sample_size text);
            df ← read_csv parser cparser text None engine_python true;
            mret (df, encoding_used, detected_delimiter)))
    ∧ (∀ (V : Type) sniff (parser : str → option str → result (DataFrame V))
         cparser path,
         read_csv_with_fallback sniff parser cparser (λ _, Ok data_bytes) path =
           (detected_delimiter ← sniff_delimiter sniff (take sample_size text);
            df ← read_csv parser cparser text None engine_python false;
            mret (df, encoding_used, detected_delimiter))).
Proof.
  pose proof (utf8_decode_iff data_bytes) as Hwf.
  pose proof (decode_block data_bytes) as Hblock.
  destruct (Codec.utf8_decode data_bytes) as [text|] eqn:Hdec.
  - assert (Codec.well_formed_utf8 data_bytes) as Hyes by (apply Hwf; eauto).
    exists text, "utf-8". repeat split; try done.
    + left. unfold Codec.decode. simpl. by rewrite Hdec.
    + intros; unfold parse_csv_bytes; cbv zeta; by rewrite Hblock.
    + intros; unfold read_csv_with_fallback; cbn [mbind result_bind]; cbv zeta; by rewrite Hblock.
  - assert (¬ Codec.well_formed_utf8 data_bytes) as Hno.
    { intros Hyes. apply Hwf in Hyes. by destruct Hyes. }
    exists (Codec.latin1_decode data_bytes), "latin-1". repeat split; try done.
    + right. unfold Codec.decode. simpl. by rewrite Hdec.
    + intros; unfold parse_csv_bytes; cbv zeta; by rewrite Hblock.
    + intros; unfold read_csv_with_fallback; cbn [mbind result_bind]; cbv zeta; by rewrite Hblock.
Qed.

(** C1.  Decoding tries strict UTF-8 first and falls back to Latin-1 exactly
    when the bytes are not well-formed UTF-8.  The decoding step itself never
    raises: in both surfaces the run continues with a decoded text, and the
    reported encoding is "utf-8" exactly for well-formed UTF-8 input and
    "latin-1" otherwise. *)
Theorem decoding_utf8_with_latin1_fallback (data_bytes : bytes) :
  ∃ (text : str) (encoding_used : string),
    (Codec.well_formed_utf8 data_bytes
       ∧ Codec.decode data_bytes "utf-8" = Ok text
       ∧ encoding_used = "utf-8"
     ∨ ¬ Codec.well_formed_utf8 data_bytes
       ∧ Codec.decode data_bytes "utf-8" = Raise UnicodeDecodeError
       ∧ Codec.decode data_bytes "latin-1" = Ok text
       ∧ encoding_used = "latin-1")
    ∧ (encoding_used = "utf-8" ↔ Codec.well_formed_utf8 data_bytes)
    ∧ (encoding_used = "latin-1" ↔ ¬ Codec.well_formed_utf8 data_bytes)
    ∧ (∀ (V : Type) sniff (parser : str → option str → result (DataFrame V))
         cparser,
         parse_csv_bytes sniff parser cparser data_bytes =
           (detected_delimiter ← sniff_delimiter sniff (take sample_size text);
            df ← read_csv parser cparser text None engine_python true;
            mret (df, encoding_used, detected_delimiter)))
    ∧ (∀ (V : Type) sniff (parser : str → option str → result (DataFrame V))
         cparser path,
         read_csv_with_fallback sniff parser cparser (λ _, Ok data_bytes) path =
           (detected_delimiter ← sniff_delimiter sniff (take sample_size text);
            df ← read_csv parser cparser text None engine_python false;
            mret (df, encoding_used, detected_delimiter))).
Proof. exact (ingestion_after_decoding data_bytes). Qed.

(** ** Float arithmetic *)

Section FloatFacts.
Local Open Scope Q_scope.

Lemma pow2_pos (k : Z) : 0 < 2 ^ k.
Proof. apply Qpower_0_lt. reflexivity. Qed.

Lemma pow2_add (a b : Z) : 2 ^ (a + b) == 2 ^ a * 2 ^ b.
Proof. apply Qpower_plus. discriminate. Qed.

Lemma pow2_sub (a b : Z) : 2 ^ (a - b) == 2 ^ a / 2 ^ b.
Proof.
  unfold Z.sub. rewrite pow2_add, Qpower_opp. reflexivity.
Qed.

Lemma pow2_le (a b : Z) : (a <= b)%Z -> 2 ^ a <= 2 ^ b.
Proof. intros. apply Qpower_le_compat_l; [done | discriminate]. Qed.

Lemma pow2_lt (a b : Z) : (a < b)%Z -> 2 ^ a < 2 ^ b.
Proof. intros. apply Qpower_lt_compat_l; [done | reflexivity]. Qed.

Lemma pow2_lt_inv (a b : Z) : 2 ^ a < 2 ^ b -> (a < b)%Z.
Proof. intros. eapply Qpower_lt_compat_l_inv; [done | reflexivity]. Qed.

Lemma pow2_inject (n : Z) : (0 <= n)%Z -> inject_Z (2 ^ n) == 2 ^ n.
Proof. intros. by rewrite Zpower_Qpower. Qed.

Lemma pow2_succ (a : Z) : 2 ^ (a + 1) == 2 * 2 ^ a.
Proof. rewrite pow2_add. change (2 ^ 1) with 2. ring. Qed.

(** *** Nearest integer *)

Lemma rne_floor_or_succ (x : Q) :
  Float64.rne x = Qfloor x \/ Float64.rne x = (Qfloor x + 1)%Z.
Proof. unfold Float64.rne. repeat case_match; auto. Qed.

Lemma rne_inject_Z (z : Z) : Float64.rne (inject_Z z) = z.
Proof.
  unfold Float64.rne. rewrite Qfloor_Z.
  destruct (Qcompare_spec (inject_Z z - inject_Z z) (1 # 2)); [lra | done | lra].
Qed.

Lemma rne_le (x y : Q) : x <= y -> (Float64.rne x <= Float64.rne y)%Z.
Proof.
  intros Hxy.
  pose proof (Qfloor_resp_le _ _ Hxy) as Hfl.
  pose proof (Qfloor_le x) as Hx1. pose proof (Qlt_floor x) as Hx2.
  pose proof (Qfloor_le y) as Hy1. pose proof (Qlt_floor y) as Hy2.
  destruct (Z.eq_dec (Qfloor x) (Qfloor y)) as [Heq|Hne].
  - unfold Float64.rne. rewrite <- Heq.
    destruct (Qcompare_spec (x - inject_Z (Qfloor x)) (1 # 2));
      destruct (Qcompare_spec (y - inject_Z (Qfloor x)) (1 # 2));
      try (destruct (Z.even (Qfloor x))); try lia; lra.
  - destruct (rne_floor_or_succ x) as [-> | ->], (rne_floor_or_succ y) as [-> | ->]; lia.
Qed.

#[export] Instance rne_proper : Proper (Qeq ==> eq) Float64.rne.
Proof.
  intros x y Hxy. apply Z.le_antisymm; apply rne_le; rewrite Hxy; apply Qle_refl.
Qed.

Lemma rne_nonneg (x : Q) : 0 <= x -> (0 <= Float64.rne x)%Z.
Proof. intros. rewrite <- (rne_inject_Z 0). by apply rne_le. Qed.

Lemma rne_error (x : Q) :
  inject_Z (Float64.rne x) - (1 # 2) <= x /\ x <= inject_Z (Float64.rne x) + (1 # 2).
Proof.
  pose proof (Qfloor_le x) as Hx1. pose proof (Qlt_floor x) as Hx2.
  rewrite inject_Z_plus in Hx2.
  unfold Float64.rne.
  destruct (Qcompare_spec (x - inject_Z (Qfloor x)) (1 # 2));
    [destruct (Z.even (Qfloor x))|..];
    rewrite ?inject_Z_plus; change (inject_Z 1) with 1 in *; split; lra.
Qed.


(** *** Binary logarithm *)

Lemma ilog2_spec (x : Q) :
  0 < x -> 2 ^ Float64.ilog2 x <= x /\ x < 2 ^ (Float64.ilog2 x + 1).
Proof.
  intros Hx. destruct x as [a b].
  assert (0 < a)%Z as Ha.
  { unfold Qlt in Hx. simpl in Hx. lia. }
  unfold Float64.ilog2. cbn [Qnum Qden].
  set (la := Z.log2 a). set (lb := Z.log2 (Z.pos b)).
  destruct (Z.log2_spec a Ha) as [Ha1 Ha2].
  destruct (Z.log2_spec (Z.pos b) eq_refl) as [Hb1 Hb2].
  fold la in Ha1, Ha2. fold lb in Hb1, Hb2.
  assert (0 <= la)%Z by apply Z.log2_nonneg.
  assert (0 <= lb)%Z by apply Z.log2_nonneg.
  rewrite Zle_Qle, pow2_inject in Ha1, Hb1 by done.
  rewrite Zlt_Qlt, pow2_inject in Ha2, Hb2 by lia.
  rewrite <- Z.add_1_r in Ha2, Hb2.
  assert (0 < inject_Z (Z.pos b)) as HB by (unfold Qlt; simpl; lia).
  assert (a # b == inject_Z a / inject_Z (Z.pos b)) as Hab by apply Qmake_Qdiv.
  pose proof (pow2_pos lb) as Plb. pose proof (pow2_pos (la - lb)) as Pd.
  (* 2^(d-1) < a/b < 2^(d+1) *)
  assert (a # b < 2 ^ (la - lb + 1)) as Hup.
  { rewrite Hab. apply Qlt_shift_div_r; [done|].
    eapply Qlt_le_trans; [exact Ha2|].
    replace (la + 1)%Z with ((la - lb + 1) + lb)%Z by lia.
    rewrite (pow2_add (la - lb + 1) lb).
    apply Qmult_le_l; [apply pow2_pos | done]. }
  assert (2 ^ (la - lb - 1) <= a # b) as Hlo.
  { rewrite Hab. apply Qle_shift_div_l; [done|].
    eapply Qle_trans; [|exact Ha1].
    replace la with ((la - lb - 1) + (lb + 1))%Z at 2 by lia.
    rewrite (pow2_add (la - lb - 1) (lb + 1)).
    apply Qmult_le_l; [apply pow2_pos | lra]. }
  destruct (Qle_bool (2 ^ (la - lb)) (a # b)) eqn:Hle.
  - apply Qle_bool_iff in Hle. done.
  - assert (¬ 2 ^ (la - lb) <= a # b) as Hnle.
    { intros Hc. apply Qle_bool_iff in Hc. congruence. }
    apply Qnot_le_lt in Hnle.
    replace (la - lb - 1 + 1)%Z with (la - lb)%Z by lia. done.
Qed.

Lemma ilog2_unique (x : Q) (k : Z) :
  2 ^ k <= x -> x < 2 ^ (k + 1) -> Float64.ilog2 x = k.
Proof.
  intros Hlo Hhi.
  assert (0 < x) as Hx by (pose proof (pow2_pos k); lra).
  destruct (ilog2_spec x Hx) as [Hlo' Hhi'].
  assert (2 ^ k < 2 ^ (Float64.ilog2 x + 1)) as H1 by lra.
  assert (2 ^ Float64.ilog2 x < 2 ^ (k + 1)) as H2 by lra.
  apply pow2_lt_inv in H1, H2. lia.
Qed.

Lemma ilog2_proper_pos (x y : Q) :
  0 < x -> x == y -> Float64.ilog2 x = Float64.ilog2 y.
Proof.
  intros Hx Hxy. destruct (ilog2_spec x Hx) as [Hlo Hhi].
  symmetry. apply ilog2_unique; rewrite <- Hxy; done.
Qed.

Lemma ilog2_le (x y : Q) :
  0 < x -> x <= y -> (Float64.ilog2 x <= Float64.ilog2 y)%Z.
Proof.
  intros Hx Hxy.
  destruct (ilog2_spec x Hx) as [Hlo Hhi].
  destruct (ilog2_spec y ltac:(lra)) as [Hlo' Hhi'].
  assert (2 ^ Float64.ilog2 x < 2 ^ (Float64.ilog2 y + 1)) as H1 by lra.
  apply pow2_lt_inv in H1. lia.
Qed.


Lemma ulp_exponent_le (x y : Q) :
  0 < x -> x <= y -> (Float64.ulp_exponent x <= Float64.ulp_exponent y)%Z.
Proof.
  intros Hx Hxy. pose proof (ilog2_le x y Hx Hxy).
  unfold Float64.ulp_exponent. lia.
Qed.

(** *** Rounding to the grid *)

Lemma scaled_bounds (x : Q) :
  0 < x ->
  x / 2 ^ Float64.ulp_exponent x < 2 ^ 53.
Proof.
  intros Hx. destruct (ilog2_spec x Hx) as [_ Hhi].
  pose proof (pow2_pos (Float64.ulp_exponent x)) as He.
  apply Qlt_shift_div_r; [done|].
  rewrite <- pow2_add.
  eapply Qlt_le_trans; [exact Hhi|].
  apply pow2_le. unfold Float64.ulp_exponent. lia.
Qed.

Lemma scaled_mantissa_bounds (x : Q) :
  0 < x ->
  (0 <= Float64.rne (x / 2 ^ Float64.ulp_exponent x) <= 2 ^ 53)%Z.
Proof.
  intros Hx. pose proof (pow2_pos (Float64.ulp_exponent x)) as He.
  split.
  - apply rne_nonneg. apply Qle_shift_div_l; [done|]. lra.
  - rewrite <- (rne_inject_Z (2 ^ 53)). apply rne_le.
    rewrite pow2_inject by lia. apply Qlt_le_weak. by apply scaled_bounds.
Qed.

Lemma round_pos_nonneg (x : Q) : 0 < x -> 0 <= Float64.round_pos x.
Proof.
  intros Hx. unfold Float64.round_pos. cbv zeta.
  apply Qmult_le_0_compat.
  - change 0 with (inject_Z 0). rewrite <- Zle_Qle.
    by apply scaled_mantissa_bounds.
  - apply Qlt_le_weak, pow2_pos.
Qed.

Lemma round_pos_le (x y : Q) :
  0 < x -> x <= y -> Float64.round_pos x <= Float64.round_pos y.
Proof.
  intros Hx Hxy. assert (0 < y) as Hy by lra.
  pose proof (ulp_exponent_le x y Hx Hxy) as He.
  unfold Float64.round_pos. cbv zeta.
  set (ex := Float64.ulp_exponent x) in *.
  set (ey := Float64.ulp_exponent y) in *.
  pose proof (pow2_pos ex) as Pex. pose proof (pow2_pos ey) as Pey.
  destruct (Z.eq_dec ex ey) as [Heq|Hne].
  - rewrite <- Heq. apply Qmult_le_compat_r; [|lra].
    rewrite <- Zle_Qle. apply rne_le.
    apply Qmult_le_compat_r; [done|]. apply Qlt_le_weak, Qinv_lt_0_compat, Pex.
  - assert (ex + 1 <= ey)%Z as Hlt by lia.
    assert (ey = Float64.ilog2 y - 52)%Z as Hey.
    { subst ex ey. unfold Float64.ulp_exponent in *. lia. }
    apply (Qle_trans _ (2 ^ (ex + 53))).
    + rewrite (pow2_add ex 53), (Qmult_comm (2 ^ ex)).
      apply Qmult_le_compat_r; [|lra].
      rewrite <- (pow2_inject 53) by lia. rewrite <- Zle_Qle.
      by apply scaled_mantissa_bounds.
    + apply (Qle_trans _ (2 ^ (52 + ey))); [apply pow2_le; lia|].
      rewrite (pow2_add 52 ey).
      apply Qmult_le_compat_r; [|lra].
      rewrite <- (pow2_inject 52) by lia. rewrite <- Zle_Qle.
      rewrite <- (rne_inject_Z (2 ^ 52)) at 1. apply rne_le.
      rewrite (pow2_inject 52) by lia.
      apply Qle_shift_div_l; [done|]. rewrite <- pow2_add.
      destruct (ilog2_spec y Hy) as [Hlo _].
      replace (52 + ey)%Z with (Float64.ilog2 y) by lia. done.
Qed.

Lemma round_pos_proper (x y : Q) :
  0 < x -> x == y -> Float64.round_pos x == Float64.round_pos y.
Proof.
  intros Hx Hxy. apply Qle_antisym; apply round_pos_le; lra.
Qed.

Lemma round_of_pos (x : Q) : 0 < x -> Float64.round x = Float64.round_pos x.
Proof.
  intros Hx. destruct x as [[|a|a] d]; try done.
Qed.

Lemma round_of_zero (x : Q) : x == 0 -> Float64.round x = 0.
Proof.
  intros Hx. destruct x as [[|a|a] d]; try done.
Qed.

Lemma round_of_neg (x : Q) :
  x < 0 -> Float64.round x = - Float64.round_pos (- x).
Proof.
  intros Hx. destruct x as [[|a|a] d]; try done.
Qed.

Lemma round_nonneg (x : Q) : 0 <= x -> 0 <= Float64.round x.
Proof.
  intros Hx. destruct (Qlt_le_dec 0 x).
  - rewrite round_of_pos by done. by apply round_pos_nonneg.
  - rewrite round_of_zero by lra. lra.
Qed.

Lemma round_le (x y : Q) : x <= y -> Float64.round x <= Float64.round y.
Proof.
  intros Hxy.
  destruct (Qlt_le_dec 0 x) as [Hx|Hx].
  - rewrite !round_of_pos by lra. by apply round_pos_le.
  - destruct (Qlt_le_dec x 0) as [Hx'|Hx'].
    + rewrite (round_of_neg x) by done.
      pose proof (round_pos_nonneg (- x) ltac:(lra)).
      destruct (Qlt_le_dec y 0) as [Hy|Hy].
      * rewrite (round_of_neg y) by done.
        pose proof (round_pos_le (- y) (- x) ltac:(lra) ltac:(lra)). lra.
      * pose proof (round_nonneg y Hy). lra.
    + rewrite (round_of_zero x) by lra. apply round_nonneg. lra.
Qed.

#[export] Instance round_proper : Proper (Qeq ==> Qeq) Float64.round.
Proof.
  intros x y Hxy. apply Qle_antisym; apply round_le; lra.
Qed.


Lemma round_pos_grid (m e : Z) :
  (0 < m < 2 ^ 53)%Z -> (-1074 <= e)%Z ->
  Float64.round_pos (inject_Z m * 2 ^ e) == inject_Z m * 2 ^ e.
Proof.
  intros Hm He.
  set (y := inject_Z m * 2 ^ e).
  set (lm := Z.log2 m).
  destruct (Z.log2_spec m ltac:(lia)) as [Hm1 Hm2]. fold lm in Hm1, Hm2.
  assert (0 <= lm)%Z by apply Z.log2_nonneg.
  assert (lm < 53)%Z by (apply Z.log2_lt_pow2; lia).
  rewrite <- Z.add_1_r in Hm2.
  rewrite Zle_Qle, pow2_inject in Hm1 by done.
  rewrite Zlt_Qlt, pow2_inject in Hm2 by lia.
  pose proof (pow2_pos e) as Pe.
  assert (Float64.ilog2 y = lm + e)%Z as Hlog.
  { apply ilog2_unique; subst y.
    - rewrite pow2_add. apply Qmult_le_compat_r; lra.
    - replace (lm + e + 1)%Z with ((lm + 1) + e)%Z by lia.
      rewrite pow2_add. apply Qmult_lt_compat_r; lra. }
  unfold Float64.round_pos. cbv zeta.
  unfold Float64.ulp_exponent. rewrite Hlog.
  set (e' := Z.max (lm + e - 52) (-1074)).
  assert (e' <= e)%Z by lia.
  assert (y / 2 ^ e' == inject_Z (m * 2 ^ (e - e'))) as Hscaled.
  { subst y. rewrite inject_Z_mult, pow2_inject by lia.
    rewrite pow2_sub. field. pose proof (pow2_pos e'). lra. }
  rewrite Hscaled, rne_inject_Z.
  subst y. rewrite inject_Z_mult, pow2_inject by lia.
  rewrite pow2_sub. field. pose proof (pow2_pos e'). lra.
Qed.

Lemma round_pos_idempotent (x : Q) :
  0 < x -> Float64.round (Float64.round_pos x) == Float64.round_pos x.
Proof.
  intros Hx.
  pose proof (scaled_mantissa_bounds x Hx) as Hm.
  assert (-1074 <= Float64.ulp_exponent x)%Z as He
    by (unfold Float64.ulp_exponent; lia).
  unfold Float64.round_pos at 2. unfold Float64.round_pos at 1. cbv zeta.
  set (m := Float64.rne (x / 2 ^ Float64.ulp_exponent x)) in *.
  set (e := Float64.ulp_exponent x) in *.
  pose proof (pow2_pos e) as Pe.
  destruct (Z.eq_dec m 0%Z) as [Hz|Hnz].
  { rewrite round_of_zero; rewrite Hz; ring. }
  assert (0 < inject_Z m) as Pm.
  { change 0 with (inject_Z 0). rewrite <- Zlt_Qlt. lia. }
  assert (0 < inject_Z m * 2 ^ e) as Py by (apply Qmult_lt_0_compat; done).
  rewrite round_of_pos by done.
  destruct (Z.eq_dec m (2 ^ 53)%Z) as [Htop|Hlow].
  - assert (inject_Z m * 2 ^ e == inject_Z (2 ^ 52) * 2 ^ (e + 1)) as Hre.
    { rewrite Htop, pow2_succ. change (2 ^ 53)%Z with (2 * 2 ^ 52)%Z.
      rewrite inject_Z_mult. change (inject_Z 2) with 2. ring. }
    rewrite (round_pos_proper _ _ Py Hre), Hre.
    apply round_pos_grid; lia.
  - apply round_pos_grid; lia.
Qed.

Lemma round_idempotent (x : Q) :
  0 <= x -> Float64.round (Float64.round x) == Float64.round x.
Proof.
  intros Hx. destruct (Qlt_le_dec 0 x).
  - rewrite (round_of_pos x) by done. by apply round_pos_idempotent.
  - rewrite (round_of_zero x) by lra. reflexivity.
Qed.

Lemma round_scale_1024 (x : Q) :
  1024 <= x -> Float64.round (x / 1024) == Float64.round x / 1024.
Proof.
  intros Hx. assert (0 < x) as Px by lra.
  destruct (ilog2_spec x Px) as [Hlo Hhi].
  set (k := Float64.ilog2 x) in *.
  assert (10 <= k)%Z as Hk.
  { assert (2 ^ 10 < 2 ^ (k + 1)) as Hlt by (change (2 ^ 10) with 1024; lra).
    apply pow2_lt_inv in Hlt. lia. }
  assert (Float64.ilog2 (x / 1024) = k - 10)%Z as Hlog.
  { apply ilog2_unique.
    - rewrite pow2_sub. change (2 ^ 10) with 1024.
      apply Qmult_le_compat_r; [done | easy].
    - replace (k - 10 + 1)%Z with (k + 1 - 10)%Z by lia.
      rewrite pow2_sub. change (2 ^ 10) with 1024.
      apply Qmult_lt_compat_r; [reflexivity | done]. }
  rewrite !round_of_pos by (try done; apply Qlt_shift_div_l; lra).
  unfold Float64.round_pos. cbv zeta.
  unfold Float64.ulp_exponent. rewrite Hlog. fold k.
  replace (Z.max (k - 10 - 52) (-1074)) with (k - 52 - 10)%Z by lia.
  replace (Z.max (k - 52) (-1074)) with (k - 52)%Z by lia.
  pose proof (pow2_pos (k - 52)) as Pe.
  assert (x / 1024 / 2 ^ (k - 52 - 10) == x / 2 ^ (k - 52)) as Hscaled.
  { rewrite (pow2_sub (k - 52) 10). change (2 ^ 10) with 1024. field. lra. }
  rewrite Hscaled, (pow2_sub (k - 52) 10). change (2 ^ 10) with 1024.
  field.
Qed.

Lemma round_inject_Z_exact (num : Z) :
  (0 <= num <= 2 ^ 53)%Z -> Float64.round (inject_Z num) == inject_Z num.
Proof.
  intros Hnum.
  destruct (Z.eq_dec num 0%Z) as [->|Hnz]; [reflexivity|].
  destruct (Z.eq_dec num (2 ^ 53)%Z) as [->|Hlow]; [by vm_compute|].
  assert (0 < inject_Z num) as Pn.
  { change 0 with (inject_Z 0). rewrite <- Zlt_Qlt. lia. }
  rewrite round_of_pos by done.
  assert (inject_Z num == inject_Z num * 2 ^ 0) as Hre by (change (2 ^ 0) with 1; ring).
  rewrite (round_pos_proper _ _ Pn Hre), round_pos_grid by lia.
  symmetry. exact Hre.
Qed.

Lemma of_int_in_range (num : Z) :
  (0 <= num < 2 ^ 1024 - 2 ^ 970)%Z ->
  Float64.of_int num = Ok (Float64.round (inject_Z num)).
Proof.
  intros Hnum. unfold Float64.of_int. cbv zeta.
  assert (0 <= Float64.round (inject_Z num)) as Hlo.
  { apply round_nonneg. change 0 with (inject_Z 0). rewrite <- Zle_Qle. lia. }
  assert (Float64.round (inject_Z num) <= inject_Z (2 ^ 1024 - 2 ^ 971)) as Hhi.
  { assert (Float64.round (inject_Z (2 ^ 1024 - 2 ^ 970 - 1))
            == inject_Z (2 ^ 1024 - 2 ^ 971)) as <- by (by vm_compute).
    apply round_le. rewrite <- Zle_Qle. lia. }
  assert (inject_Z (2 ^ 1024 - 2 ^ 971) < 2 ^ 1024) as Hmax by (by vm_compute).
  unfold Float64.overflows.
  destruct (Qle_bool (2 ^ 1024) _) eqn:H1.
  { apply Qle_bool_iff in H1. lra. }
  destruct (Qle_bool _ (- 2 ^ 1024)) eqn:H2; [|done].
  apply Qle_bool_iff in H2.
  assert (0 < 2 ^ 1024) by apply pow2_pos. lra.
Qed.

End FloatFacts.

(** ** [human_bytes] *)

Lemma human_bytes_loop_eq (s : Q * nat) :
  human_bytes_loop s =
    if human_bytes_cond s then human_bytes_loop (human_bytes_body s) else s.
Proof.
  funelim (human_bytes_loop s); by rewrite Hcond.
Qed.

Lemma pow1024_succ (j : nat) :
  (1024 ^ Z.of_nat (S j) == 1024 * 1024 ^ Z.of_nat j)%Q.
Proof.
  rewrite Nat2Z.inj_succ, <- Z.add_1_l, Qpower_plus by discriminate.
  reflexivity.
Qed.

Lemma pow1024_pos (j : nat) : (0 < 1024 ^ Z.of_nat j)%Q.
Proof. apply Qpower_0_lt. reflexivity. Qed.

(** The loop, started in a state whose [f] is a non-negative binary64 value:
    it runs [i' - i] iterations, every division is exact, and it stops at
    the first state whose [f] is below 1024 or whose [i] is 4. *)
Lemma human_bytes_loop_spec (n : nat) :
  ∀ (f : Q) (i : nat),
    i + n = 4 → (0 <= f)%Q → (Float64.round f == f)%Q →
    ∃ (f' : Q) (k : nat),
      human_bytes_loop (f, i) = (f', i + k)
      ∧ (f', i + k) = Nat.iter k human_bytes_body (f, i)
      ∧ i + k ≤ 4
      ∧ (f' == f / 1024 ^ Z.of_nat k)%Q
      ∧ (Float64.round f' == f')%Q
      ∧ ((f' < 1024)%Q ∨ i + k = 4)
      ∧ ∀ j, j < k → (1024 <= f / 1024 ^ Z.of_nat j)%Q.
Proof.
  induction n as [|n IH]; intros f i Hi Hf Hgrid.
  - exists f, 0. rewrite human_bytes_loop_eq.
    unfold human_bytes_cond. cbn [fst snd].
    replace (i <? length symbols - 1) with false
      by (symmetry; apply Nat.ltb_ge; simpl; lia).
    rewrite andb_false_r, Nat.add_0_r.
    repeat split; try done; try lia.
    simpl. field.
  - rewrite human_bytes_loop_eq.
    unfold human_bytes_cond at 1. cbn [fst snd].
    replace (i <? length symbols - 1) with true
      by (symmetry; apply Nat.ltb_lt; simpl; lia).
    rewrite andb_true_r. unfold Float64.ge.
    destruct (Qle_bool 1024 f) eqn:Hge.
    + apply Qle_bool_iff in Hge.
      assert (Float64.div f 1024 == f / 1024)%Q as Hexact.
      { unfold Float64.div. by rewrite round_scale_1024, Hgrid. }
      destruct (IH (Float64.div f 1024) (S i)) as
        (f' & k & Hloop & Hiter & Hk & Hval & Hgrid' & Hstop & Hmin).
      * lia.
      * rewrite Hexact. apply Qle_shift_div_l; [reflexivity | lra].
      * unfold Float64.div. apply round_idempotent.
        apply Qle_shift_div_l; [reflexivity | lra].
      * exists f', (S k).
        replace (i + S k) with (S i + k) by lia.
        unfold human_bytes_body at 1. cbn [fst snd].
        replace (i + 1) with (S i) by lia.
        repeat split; try done.
        -- rewrite Hiter, Nat.iter_succ_r.
           unfold human_bytes_body at 3. cbn [fst snd].
           by replace (i + 1) with (S i) by lia.
        -- rewrite Hval, Hexact, pow1024_succ.
           pose proof (pow1024_pos k). field. lra.
        -- intros [|j] Hj.
           ++ simpl. change (1024 ^ 0)%Q with 1%Q.
              assert (f / 1 == f)%Q as -> by field. done.
           ++ specialize (Hmin j ltac:(lia)).
              rewrite Hexact in Hmin.
              rewrite pow1024_succ.
              pose proof (pow1024_pos j).
              assert (f / (1024 * 1024 ^ Z.of_nat j) == f / 1024 / 1024 ^ Z.of_nat j)%Q
                as -> by (field; lra).
              done.
    + exists f, 0. rewrite Nat.add_0_r.
      assert (f < 1024)%Q.
      { apply Qnot_le_lt. intros Hc. apply Qle_bool_iff in Hc. congruence. }
      repeat split; try done; try lia; try (by left).
      simpl. field.
Qed.

Lemma human_bytes_in_float_range (num : Z) :
  (0 ≤ num < 2 ^ 1024 - 2 ^ 970)%Z →
  ∃ (f : Q) (i : nat) (unit : string),
    let f0 := Float64.round (inject_Z num) in
    Float64.of_int num = Ok f0
    ∧ ((num ≤ 2 ^ 53)%Z → (f0 == inject_Z num)%Q)
    ∧ human_bytes num = Ok (Float64.format_2f f +:+ " " +:+ unit)
    ∧ (f, i) = Nat.iter i human_bytes_body (f0, 0)
    ∧ i ≤ 4
    ∧ symbols !! i = Some unit
    ∧ (f == f0 / 1024 ^ Z.of_nat i)%Q
    ∧ ((f < 1024)%Q ∨ i = 4)
    ∧ ∀ j, j < i → (1024 <= f0 / 1024 ^ Z.of_nat j)%Q.
Proof.
  intros Hnum. cbv zeta.
  set (f0 := Float64.round (inject_Z num)).
  pose proof (of_int_in_range num Hnum) as Hconv. fold f0 in Hconv.
  assert (0 <= inject_Z num)%Q as Hnonneg.
  { change 0%Q with (inject_Z 0). rewrite <- Zle_Qle. lia. }
  destruct (human_bytes_loop_spec 4 f0 0) as
    (f & i & Hloop & Hiter & Hi & Hval & _ & Hstop & Hmin).
  { lia. }
  { by apply round_nonneg. }
  { by apply round_idempotent. }
  cbn [Nat.add] in Hloop, Hiter, Hi, Hstop.
  assert (is_Some (symbols !! i)) as [unit Hunit].
  { apply lookup_lt_is_Some. simpl. lia. }
  exists f, i, unit. split_and!; try done.
  - intros Hsmall. apply round_inject_Z_exact. lia.
  - unfold human_bytes. cbv zeta. rewrite Hconv. cbn [mbind result_bind].
    rewrite Hloop. cbn [fst snd mret result_ret].
    by rewrite (list_lookup_total_correct _ _ _ Hunit).
Qed.

(** C10 (as amended).  For every integer [0 <= num < 2^1024 - 2^970],
    [float(num)] succeeds (and is [num] itself up to 2^53), the loop of
    [human_bytes] stops after [i <= 4] divisions by 1024, each of them exact,
    and the result is the two-decimal rendering of [float(num) / 1024^i]
    followed by the [i]-th of B, KB, MB, GB, TB, where [i] is the least index
    at which the scaled value is below 1024, or 4. *)
Theorem human_bytes_unit_and_scaled_value (num : Z) :
  (0 ≤ num < 2 ^ 1024 - 2 ^ 970)%Z →
  ∃ (f : Q) (i : nat) (unit : string),
    let f0 := Float64.round (inject_Z num) in
    Float64.of_int num = Ok f0
    ∧ ((num ≤ 2 ^ 53)%Z → (f0 == inject_Z num)%Q)
    ∧ human_bytes num = Ok (Float64.format_2f f +:+ " " +:+ unit)
    ∧ (f, i) = Nat.iter i human_bytes_body (f0, 0)
    ∧ i ≤ 4
    ∧ symbols !! i = Some unit
    ∧ (f == f0 / 1024 ^ Z.of_nat i)%Q
    ∧ ((f < 1024)%Q ∨ i = 4)
    ∧ ∀ j, j < i → (1024 <= f0 / 1024 ^ Z.of_nat j)%Q.
Proof. exact (human_bytes_in_float_range num). Qed.

Lemma human_bytes_unit_and_scaled_value_witness :
  ∃ (f : Q) (i : nat) (unit : string),
    human_bytes 1536 = Ok (Float64.format_2f f +:+ " " +:+ unit)
    ∧ i ≤ 4 ∧ symbols !! i = Some unit
    ∧ (f == Float64.round (inject_Z 1536) / 1024 ^ Z.of_nat i)%Q.
Proof.
  destruct (human_bytes_unit_and_scaled_value 1536) as
    (f & i & unit & _ & _ & Hstr & _ & Hi & Hunit & Hval & _).
  - split; [lia | reflexivity].
  - exists f, i, unit. split_and!; assumption.
Defined.

(** C10 as stated fails on large integers: [float(num)] raises
    [OverflowError] from 2^1024 - 2^970 on, and above 2^53 the rendered
    number is that of the rounded float, not of the input. *)
Lemma human_bytes_out_of_float_range :
  human_bytes (2 ^ 1024) = Raise OverflowError
  ∧ human_bytes 36028802516522107 = Ok "32768.00 TB"
  ∧ Float64.format_2f (inject_Z 36028802516522107 / 1024 ^ 4) = "32768.01".
Proof. split_and!; vm_compute; reflexivity. Qed.

(** ** The delimiter sniffer *)

Lemma comma_is_a_candidate : lit "," ∈ delimiters.
Proof. unfold delimiters. apply list_elem_of_here. Qed.

Lemma first_candidate_sniffer_contract (sample : str) (candidates : list str)
    (dialect : Dialect) :
  first_candidate_sniffer sample candidates = Ok dialect →
  delimiter dialect ∈ candidates.
Proof.
  unfold first_candidate_sniffer.
  match goal with
  | |- context [List.find ?f ?l] => destruct (List.find f l) as [d|] eqn:Hfind
  end; [|done].
  intros [= <-]. apply find_some in Hfind as [Hin _].
  by apply list_elem_of_In.
Qed.

(** C2.  For every sample and whatever the library's sniffer does,
    [sniff_delimiter] returns and never raises; an exception of the sniffer
    yields ","; otherwise the answer is the sniffed delimiter, which belongs
    to the candidate set [",", ";", tab, "|", ":"] because the sniffer only
    ever answers with one of the delimiters it was given. *)
Theorem sniff_delimiter_never_raises
    (sniff : str → list str → result Dialect) (sample_text : str) :
  ∃ d : str,
    sniff_delimiter sniff sample_text = Ok d
    ∧ (raises (sniff sample_text delimiters) → d = lit ",")
    ∧ (∀ dialect, sniff sample_text delimiters = Ok dialect →
         d = delimiter dialect)
    ∧ ((∀ s ds dialect, sniff s ds = Ok dialect → delimiter dialect ∈ ds) →
       d ∈ delimiters).
Proof.
  rewrite sniff_delimiter_returns.
  destruct (sniff sample_text delimiters) as [dialect|e] eqn:Hsniff.
  - exists (delimiter dialect). split_and!; [done| |congruence|eauto].
    intros [e He]. discriminate.
  - exists (lit ","). split_and!; [done|done|done|].
    intros _. apply comma_is_a_candidate.
Qed.

Lemma sniff_delimiter_never_raises_witness :
  ∃ d : str,
    sniff_delimiter first_candidate_sniffer (lit "a;b") = Ok d
    ∧ d ∈ delimiters.
Proof.
  destruct (sniff_delimiter_never_raises first_candidate_sniffer (lit "a;b"))
    as (d & Hd & _ & _ & Hin).
  exists d. split; [exact Hd|].
  apply Hin. apply first_candidate_sniffer_contract.
Defined.

(** ** Ingestion *)

Lemma read_csv_with_fallback_content {V : Type}
    (sniff : str → list str → result Dialect)
    (parser : str → option str → result (DataFrame V))
    (cparser : str → option str → bool → result (DataFrame V))
    (read_bytes : string → result bytes) (path : string) (content : bytes) :
  read_bytes path = Ok content →
  read_csv_with_fallback sniff parser cparser read_bytes path =
    read_csv_with_fallback sniff parser cparser (λ _, Ok content) path.
Proof. intros Hread. unfold read_csv_with_fallback. by rewrite Hread. Qed.

(** C8.  The table does not depend on the sniffed delimiter: in both
    surfaces, running the pipeline with two arbitrary sniffers gives the same
    table or the same exception, because the parser is called with the
    decoded text and [sep=None] only.  Whatever the sniffer answers, it
    cannot turn a successful parse into an error. *)
Theorem table_independent_of_sniffed_delimiter {V : Type}
    (sniff1 sniff2 : str → list str → result Dialect)
    (parser : str → option str → result (DataFrame V))
    (cparser : str → option str → bool → result (DataFrame V))
    (read_bytes : string → result bytes)
    (data_bytes : bytes) (path : string) :
  (λ r, r.1.1) <$> parse_csv_bytes sniff1 parser cparser data_bytes
    = (λ r, r.1.1) <$> parse_csv_bytes sniff2 parser cparser data_bytes
  ∧ (λ r, r.1.1) <$> read_csv_with_fallback sniff1 parser cparser read_bytes path
    = (λ r, r.1.1) <$> read_csv_with_fallback sniff2 parser cparser read_bytes path
  ∧ ∃ text : str,
      (λ r, r.1.1) <$> parse_csv_bytes sniff1 parser cparser data_bytes
        = parser text None
      ∧ ∀ df, parser text None = Ok df →
          ∃ encoding_used d1,
            parse_csv_bytes sniff1 parser cparser data_bytes
              = Ok (df, encoding_used, d1).
Proof.
  split_and!.
  - destruct (ingestion_after_decoding data_bytes)
      as (text & enc & _ & _ & _ & Hweb & _).
    rewrite !Hweb, !sniff_delimiter_returns. simpl.
    destruct (parser text None); reflexivity.
  - destruct (read_bytes path) as [content|e] eqn:Hread.
    + rewrite !(read_csv_with_fallback_content _ _ _ _ _ _ Hread).
      destruct (ingestion_after_decoding content)
        as (text & enc & _ & _ & _ & _ & Hcli).
      rewrite !Hcli, !sniff_delimiter_returns. reflexivity.
    + unfold read_csv_with_fallback. by rewrite Hread.
  - destruct (ingestion_after_decoding data_bytes)
      as (text & enc & _ & _ & _ & Hweb & _).
    exists text. rewrite !Hweb, !sniff_delimiter_returns. simpl.
    split.
    + destruct (parser text None); reflexivity.
    + intros df ->. eauto.
Qed.

(** Whatever the file holds, the command-line reader stops at the option
    check of [read_csv]. *)
Lemma read_csv_with_fallback_raises {V : Type}
    (sniff : str → list str → result Dialect)
    (parser : str → option str → result (DataFrame V))
    (cparser : str → option str → bool → result (DataFrame V))
    (read_bytes : string → result bytes) (path : string) (content : bytes) :
  read_bytes path = Ok content →
  read_csv_with_fallback sniff parser cparser read_bytes path =
    Raise (ValueError
      "The 'low_memory' option is not supported with the 'python' engine").
Proof.
  intros Hread. rewrite (read_csv_with_fallback_content _ _ _ _ _ _ Hread).
  destruct (ingestion_after_decoding content)
    as (text & enc & _ & _ & _ & _ & Hcli).
  rewrite Hcli, sniff_delimiter_returns. reflexivity.
Qed.

(** With the same option on both sides the two ingestion functions are the
    same function of the file content. *)
Lemma ingestion_equal_up_to_low_memory {V : Type}
    (sniff : str → list str → result Dialect)
    (parser : str → option str → result (DataFrame V))
    (cparser : str → option str → bool → result (DataFrame V))
    (data_bytes : bytes) :
  ∃ (text : str) (encoding_used : string) (d : str),
    parse_csv_bytes sniff parser cparser data_bytes =
      (df ← read_csv parser cparser text None engine_python true;
       mret (df, encoding_used, d))
    ∧ ∀ path,
        read_csv_with_fallback sniff parser cparser (λ _, Ok data_bytes) path =
          (df ← read_csv parser cparser text None engine_python false;
           mret (df, encoding_used, d)).
Proof.
  destruct (ingestion_after_decoding data_bytes)
    as (text & enc & _ & _ & _ & Hweb & Hcli).
  exists text, enc.
  pose proof (sniff_delimiter_returns sniff (take sample_size text)) as Hd.
  eexists. split.
  - by rewrite Hweb, Hd.
  - intros path. by rewrite Hcli, Hd.
Qed.

(** C9 fails on the code: on the file "a,b\n1,2\n" the web ingestion returns
    a table, the "utf-8" tag and the "," delimiter, while the command-line
    ingestion of the same bytes raises [ValueError] at the [low_memory]
    option. *)
Theorem cli_ingestion_differs_from_web_ingestion :
  let content := b ("a,b" +:+ LF +:+ "1,2" +:+ LF) in
  parse_csv_bytes first_candidate_sniffer comma_reader no_c_parser content
    = Ok (mkDataFrame [mkColumn (lit "a") object_ [Some (lit "1")];
                       mkColumn (lit "b") object_ [Some (lit "2")]],
          "utf-8", lit ",")
  ∧ read_csv_with_fallback first_candidate_sniffer comma_reader no_c_parser
      (single_file "data.csv" content) "data.csv"
    = Raise (ValueError
        "The 'low_memory' option is not supported with the 'python' engine").
Proof. split; vm_compute; reflexivity. Qed.

(** ** Frames *)


Section FrameFacts.
Context {V : Type} `{EqDecision V}.
Implicit Types (df : DataFrame V) (c : Column V) (cells : list (Cell V)).
Implicit Types (mask : list bool).

Lemma count_true_nil : count_true [] = 0.
Proof. reflexivity. Qed.

Lemma count_true_cons (x : bool) mask :
  count_true (x :: mask) = (if x then 1 else 0) + count_true mask.
Proof.
  unfold count_true. rewrite filter_cons.
  destruct x; case_decide; simpl; congruence.
Qed.

Lemma count_true_app mask1 mask2 :
  count_true (mask1 ++ mask2) = count_true mask1 + count_true mask2.
Proof. unfold count_true. by rewrite filter_app, length_app. Qed.

Lemma count_true_le mask : count_true mask ≤ length mask.
Proof. unfold count_true. apply length_filter. Qed.

Lemma foldr_plus_add {A} (f g : A → nat) (l : list A) :
  foldr plus 0 ((λ x, f x + g x) <$> l)
  = foldr plus 0 (f <$> l) + foldr plus 0 (g <$> l).
Proof. induction l as [|x l IH]; csimpl; lia. Qed.

Lemma count_true_concat {A} (f : A → list (Cell V)) (l : list A) :
  count_true (isna <$> concat (f <$> l))
  = foldr plus 0 ((λ x, count_true (isna <$> f x)) <$> l).
Proof.
  induction l as [|x l IH]; [done|].
  csimpl. by rewrite fmap_app, count_true_app, IH.
Qed.

(** Missing cells of a column, counted position by position. *)
Lemma missing_pointwise (n : nat) cells :
  length cells = n →
  count_true (isna <$> cells)
  = foldr plus 0 ((λ i, count_true [isna (cells !!! i)]) <$> seq 0 n).
Proof.
  revert cells. induction n as [|n IH]; intros cells Hlen.
  - by destruct cells.
  - destruct cells as [|cell cells]; [done|]. simpl in Hlen.
    rewrite fmap_cons, count_true_cons.
    rewrite (IH cells) by lia.
    cbn [seq]. rewrite <- fmap_S_seq, fmap_cons, <- list_fmap_compose. csimpl.
    rewrite count_true_cons, count_true_nil, Nat.add_0_r. reflexivity.
Qed.


Lemma cells_pointwise cells :
  cells = (λ i, cells !!! i) <$> seq 0 (length cells).
Proof.
  apply list_eq. intros i. rewrite list_lookup_fmap.
  destruct (decide (i < length cells)) as [Hi|Hi].
  - rewrite lookup_seq_lt by done. simpl.
    by apply list_lookup_lookup_total_lt.
  - rewrite lookup_seq_ge by lia. apply lookup_ge_None. lia.
Qed.

(** Counting the missing cells row by row or column by column gives the
    same number. *)
Lemma missing_by_rows_is_missing_by_columns (n : nat) (columns : list (Column V)) :
  Forall (λ c, length (col_cells c) = n) columns →
  count_true (isna <$> concat
    ((λ i, (λ c, col_cells c !!! i) <$> columns) <$> seq 0 n))
  = foldr plus 0 ((λ c, count_true (isna <$> col_cells c)) <$> columns).
Proof.
  induction 1 as [|c columns Hc _ IH].
  - rewrite count_true_concat. csimpl. induction (seq 0 n); csimpl; lia.
  - rewrite count_true_concat in IH |- *. csimpl.
    rewrite <- IH, (missing_pointwise n (col_cells c) Hc), <- foldr_plus_add.
    f_equal. apply list_fmap_ext. intros _ i _.
    csimpl. rewrite !count_true_cons, count_true_nil. lia.
Qed.

Lemma missing_in_frame df :
  well_formed df →
  sum_nat ((isna_sum df).*2)
  = Z.of_nat (count_true (isna <$> concat (df_rows df))).
Proof.
  intros Hwf. unfold sum_nat, isna_sum, df_rows, df_row. f_equal.
  rewrite (missing_by_rows_is_missing_by_columns _ _ Hwf).
  f_equal. rewrite <- list_fmap_compose. done.
Qed.

Lemma missing_at_most_cells df :
  well_formed df →
  (0 ≤ sum_nat ((isna_sum df).*2) ≤ Z.of_nat (df_len df * df_width df))%Z.
Proof.
  intros Hwf. unfold sum_nat, isna_sum, df_width. split; [lia|].
  apply inj_le. rewrite <- list_fmap_compose.
  unfold well_formed in Hwf. revert Hwf.
  generalize (df_len df) as n. intros n.
  induction 1 as [|c columns Hc _ IH]; csimpl; [lia|].
  pose proof (count_true_le (isna <$> col_cells c)) as Hle.
  rewrite length_fmap, Hc in Hle. lia.
Qed.


(** *** Duplicated rows *)

Lemma length_duplicated_from (seen rws : list (list (Cell V))) :
  length (duplicated_from seen rws) = length rws.
Proof. revert seen. induction rws as [|r rws IH]; intros seen; csimpl; auto. Qed.

Lemma duplicated_from_spec (rws seen : list (list (Cell V))) (i : nat) :
  duplicated_from seen rws !! i = Some true
  ↔ ∃ r, rws !! i = Some r ∧ (r ∈ seen ∨ ∃ j, j < i ∧ rws !! j = Some r).
Proof.
  revert seen i. induction rws as [|r0 rws IH]; intros seen i.
  { split; [done|]. by intros (r & Hr & _). }
  destruct i as [|i]; cbn [duplicated_from lookup list_lookup].
  - split.
    + intros [= Hdec]. apply bool_decide_eq_true in Hdec. eauto.
    + intros (r & [= <-] & [Hin | (j & Hj & _)]); [|lia].
      f_equal. by apply bool_decide_eq_true.
  - change (list_lookup i ?l) with (l !! i). rewrite IH. split.
    + intros (r & Hr & [Hin | (j & Hj & Hrj)]).
      * exists r. split; [done|]. apply elem_of_cons in Hin as [-> | Hin]; [|auto].
        right. exists 0. split; [lia | done].
      * exists r. split; [done|]. right. exists (S j). split; [lia | done].
    + intros (r & Hr & [Hin | (j & Hj & Hrj)]).
      * exists r. split; [done|]. left. by apply elem_of_cons; right.
      * exists r. split; [done|]. destruct j as [|j].
        -- left. apply elem_of_cons; left. simpl in Hrj. congruence.
        -- right. exists j. split; [lia | done].
Qed.

(** A row is marked exactly when an equal row stands before it. *)
Lemma duplicated_spec df (i : nat) :
  duplicated df !! i = Some true
  ↔ i < length (df_rows df)
    ∧ ∃ j, j < i ∧ df_rows df !! j = df_rows df !! i.
Proof.
  unfold duplicated. rewrite duplicated_from_spec. split.
  - intros (r & Hr & [Hin | (j & Hj & Hrj)]); [by apply elem_of_nil in Hin|].
    split; [by eapply lookup_lt_Some|]. exists j. split; [done | congruence].
  - intros (Hi & j & Hj & Hrj).
    destruct (lookup_lt_is_Some_2 _ _ Hi) as [r Hr].
    exists r. split; [done|]. right. exists j. split; [done | congruence].
Qed.

Lemma length_duplicated df : length (duplicated df) = df_len df.
Proof.
  unfold duplicated, df_rows.
  by rewrite length_duplicated_from, length_fmap, length_seq.
Qed.

(** *** Positions of a mask *)

Lemma elem_of_true_positions mask (i : nat) :
  i ∈ true_positions mask ↔ mask !! i = Some true.
Proof.
  unfold true_positions. rewrite list_elem_of_filter, elem_of_seq.
  split; [tauto|]. intros Hi. split; [done|].
  apply lookup_lt_Some in Hi. lia.
Qed.

Lemma filter_seq_sorted (P : nat → Prop) `{∀ i, Decision (P i)} (a n : nat) :
  StronglySorted lt (filter P (seq a n)).
Proof.
  revert a. induction n as [|n IH]; intros a; [constructor|].
  cbn [seq]. rewrite filter_cons. case_decide; [|apply IH].
  constructor; [apply IH|].
  apply Forall_forall. intros j Hj.
  apply list_elem_of_filter in Hj as [_ Hj]. apply elem_of_seq in Hj. lia.
Qed.

Lemma true_positions_sorted mask : StronglySorted lt (true_positions mask).
Proof. apply filter_seq_sorted. Qed.

Lemma filter_ext_elem_of {A} (P Q : A → Prop)
    `{∀ x, Decision (P x)} `{∀ x, Decision (Q x)} (l : list A) :
  (∀ x, x ∈ l → (P x ↔ Q x)) → filter P l = filter Q l.
Proof.
  induction l as [|x l IH]; intros Hext; [done|].
  rewrite !filter_cons.
  rewrite IH by (intros y Hy; apply Hext; by apply elem_of_cons; right).
  pose proof (Hext x ltac:(by apply elem_of_cons; left)).
  repeat case_decide; tauto.
Qed.

Lemma true_positions_snoc mask (x : bool) :
  true_positions (mask ++ [x])
  = true_positions mask ++ (if x then [length mask] else []).
Proof.
  unfold true_positions. rewrite length_app. cbn [length].
  rewrite Nat.add_1_r, seq_S, filter_app. cbn [Nat.add]. f_equal.
  - apply filter_ext_elem_of. intros i Hi.
    apply elem_of_seq in Hi. by rewrite lookup_app_l by lia.
  - rewrite filter_cons, filter_nil.
    rewrite list_lookup_middle by done.
    destruct x; case_decide; congruence.
Qed.

Lemma length_true_positions mask :
  length (true_positions mask) = count_true mask.
Proof.
  induction mask as [|x mask IH] using rev_ind; [done|].
  rewrite true_positions_snoc, count_true_app, count_true_cons, count_true_nil.
  rewrite length_app, IH. by destruct x.
Qed.


(** *** Selecting rows *)

Lemma df_len_take_rows (positions : list nat) df :
  df_columns df ≠ [] → df_len (take_rows positions df) = length positions.
Proof.
  unfold df_len, take_rows. destruct (df_columns df); [done|].
  intros _. csimpl. by rewrite length_fmap.
Qed.

Lemma df_rows_head_take_rows (n : nat) (positions : list nat) df :
  df_columns df ≠ [] ∨ positions = [] →
  df_rows (head n (take_rows positions df)) = take n (df_row df <$> positions).
Proof.
  intros Hshape.
  destruct (df_columns df) as [|c columns] eqn:Hcols.
  { destruct Hshape as [Hne | ->]; [done|].
    unfold df_rows, df_len, head, take_rows. rewrite Hcols. csimpl.
    by rewrite take_nil. }
  assert (df_len (head n (take_rows positions df)) = n `min` length positions)
    as Hlen.
  { unfold df_len, head, take_rows. rewrite Hcols. csimpl.
    by rewrite length_take, length_fmap. }
  apply list_eq. intros i. unfold df_rows. rewrite Hlen, list_lookup_fmap.
  destruct (decide (i < n `min` length positions)) as [Hi|Hi].
  - rewrite lookup_seq_lt by done. cbn [Nat.add fmap option_fmap option_map].
    rewrite lookup_take_lt by lia. rewrite list_lookup_fmap.
    destruct (lookup_lt_is_Some_2 positions i ltac:(lia)) as [p Hp].
    rewrite Hp. csimpl. f_equal.
    unfold df_row, head, take_rows. cbn [df_columns].
    rewrite <- !list_fmap_compose. apply list_fmap_ext. intros _ c' _. csimpl.
    rewrite lookup_total_take_lt by lia.
    apply list_lookup_total_correct. by rewrite list_lookup_fmap, Hp.
  - rewrite lookup_seq_ge by lia. symmetry. csimpl.
    apply lookup_ge_None. rewrite length_take, length_fmap. lia.
Qed.

Lemma df_rows_head (n : nat) df : df_rows (head n df) = take n (df_rows df).
Proof.
  destruct (df_columns df) as [|c columns] eqn:Hcols.
  { unfold df_rows, df_len, head. rewrite Hcols. csimpl. by rewrite take_nil. }
  assert (df_len (head n df) = n `min` df_len df) as Hlen.
  { unfold df_len, head. rewrite Hcols. csimpl. by rewrite length_take. }
  unfold df_rows. rewrite Hlen, <- fmap_take, take_seq.
  apply list_fmap_ext. intros k i Hi. apply lookup_seq in Hi as [-> Hi].
  unfold df_row, head. cbn [df_columns Nat.add].
  rewrite <- list_fmap_compose. apply list_fmap_ext. intros _ c' _. csimpl.
  rewrite lookup_total_take_lt by lia. done.
Qed.

Lemma no_columns_no_duplicates df :
  df_columns df = [] → true_positions (duplicated df) = [].
Proof.
  intros Hcols. unfold duplicated, df_rows, df_len. by rewrite Hcols.
Qed.

(** *** The percentage *)

Lemma int_truediv_fraction (a : Z) (t : nat) :
  (0 ≤ a ≤ Z.of_nat t)%Z → 0 < t →
  Float64.int_truediv a (Z.of_nat t)
    = Ok (Float64.round (inject_Z a / inject_Z (Z.of_nat t)))
  ∧ (0 <= Float64.round (inject_Z a / inject_Z (Z.of_nat t)) <= 1)%Q.
Proof.
  intros Ha Ht.
  set (q := (inject_Z a / inject_Z (Z.of_nat t))%Q).
  assert (0 < inject_Z (Z.of_nat t))%Q as Pt.
  { change 0%Q with (inject_Z 0). rewrite <- Zlt_Qlt. lia. }
  assert (0 <= q <= 1)%Q as [Hq0 Hq1].
  { subst q. split.
    - apply Qle_shift_div_l; [done|]. rewrite Qmult_0_l.
      change 0%Q with (inject_Z 0). rewrite <- Zle_Qle. lia.
    - apply Qle_shift_div_r; [done|]. rewrite Qmult_1_l.
      rewrite <- Zle_Qle. lia. }
  assert (0 <= Float64.round q <= 1)%Q as Hround.
  { split; [by apply round_nonneg|].
    assert (Float64.round 1 == 1)%Q as <- by (by vm_compute).
    by apply round_le. }
  split; [|done].
  unfold Float64.int_truediv. fold q.
  replace (Z.of_nat t =? 0)%Z with false by (symmetry; apply Z.eqb_neq; lia).
  cbv zeta. unfold Float64.overflows.
  assert (1 < 2 ^ 1024)%Q as Hbig by (by vm_compute).
  destruct (Qle_bool (2 ^ 1024) _) eqn:H1.
  { apply Qle_bool_iff in H1. lra. }
  destruct (Qle_bool _ (- 2 ^ 1024)) eqn:H2; [|done].
  apply Qle_bool_iff in H2. lra.
Qed.

Lemma percentage_block (a : Z) (t : nat) :
  (0 ≤ a ≤ Z.of_nat t)%Z →
  ∃ pct : Q,
    (if 0 <? t
     then q ← Float64.int_truediv a (Z.of_nat t); mret (Float64.mul q 100)
     else mret 0%Q) = Ok pct
    ∧ (t = 0 → pct = 0%Q)
    ∧ (0 < t →
       pct = Float64.mul
               (Float64.round (inject_Z a / inject_Z (Z.of_nat t))) 100)
    ∧ (0 <= pct <= 100)%Q.
Proof.
  intros Ha. destruct (Nat.ltb_spec 0 t) as [Ht|Ht].
  - destruct (int_truediv_fraction a t Ha Ht) as [-> [Hq0 Hq1]].
    eexists. split; [reflexivity|]. split_and!; [lia|done|..];
      set (r := Float64.round _) in *; clearbody r.
    + unfold Float64.mul. apply round_nonneg. lra.
    + unfold Float64.mul.
      apply (Qle_trans _ (Float64.round 100)); [apply round_le; lra|].
      by vm_compute.
  - exists 0%Q. split_and!; [done|done|lia|done|done].
Qed.

(** Both ends of the range are attained exactly. *)
Lemma percentage_extremes (a : Z) (t : nat) :
  0 < t →
  (a = 0%Z →
   Float64.mul (Float64.round (inject_Z a / inject_Z (Z.of_nat t))) 100 == 0)%Q
  ∧ (a = Z.of_nat t →
     Float64.mul (Float64.round (inject_Z a / inject_Z (Z.of_nat t))) 100
     == 100)%Q.
Proof.
  intros Ht.
  assert (0 < inject_Z (Z.of_nat t))%Q as Pt.
  { change 0%Q with (inject_Z 0). rewrite <- Zlt_Qlt. lia. }
  unfold Float64.mul. split; intros ->.
  - assert (inject_Z 0 / inject_Z (Z.of_nat t) == 0)%Q as -> by (by field; lra).
    by vm_compute.
  - assert (inject_Z (Z.of_nat t) / inject_Z (Z.of_nat t) == 1)%Q as ->
      by (field; lra).
    by vm_compute.
Qed.

End FrameFacts.

(** ** The profiler *)

Section ProfilerFacts.
Context {V : Type} `{EqDecision V}.
Variable Sniffer_sniff : str → list str → result Dialect.
Variable python_parser : str → option str → result (DataFrame V).
Variable c_parser : str → option str → bool → result (DataFrame V).
Variable Summary : Type.
Variable describe_number : DataFrame V → Summary.
Variable summary_round : nat → Summary → Summary.
Variable summary_fmt_num : Summary → Summary.
Variable memory_usage_deep : DataFrame V → list Z.

Local Abbreviation compute_stats' :=
  (compute_stats Summary describe_number summary_round summary_fmt_num
     memory_usage_deep).
Local Abbreviation main_report' :=
  (main_report Summary describe_number summary_round memory_usage_deep).
Local Abbreviation analyze' :=
  (analyze Sniffer_sniff python_parser c_parser Summary describe_number
     summary_round summary_fmt_num memory_usage_deep).

(** The percentage both surfaces compute for a frame. *)
Lemma percentage_of_frame (df : DataFrame V) :
  well_formed df ∨ df_len df * df_width df = 0 →
  ∃ pct : Q,
    (if 0 <? df_len df * df_width df
     then q ← Float64.int_truediv (sum_nat ((isna_sum df).*2))
                (Z.of_nat (df_len df * df_width df));
          mret (Float64.mul q 100)
     else mret 0%Q) = Ok pct
    ∧ (df_len df * df_width df = 0 → pct = 0%Q)
    ∧ (0 < df_len df * df_width df →
       pct = Float64.mul
               (Float64.round
                  (inject_Z (sum_nat ((isna_sum df).*2))
                   / inject_Z (Z.of_nat (df_len df * df_width df)))) 100)
    ∧ (0 <= pct <= 100)%Q.
Proof.
  intros [Hwf | Hzero].
  - apply percentage_block. by apply missing_at_most_cells.
  - rewrite Hzero. exists 0%Q. split_and!; [done|done|lia|done|done].
Qed.

Lemma compute_stats_returns (df : DataFrame V) :
  well_formed df ∨ df_len df * df_width df = 0 →
  ∃ pct : Q,
    compute_stats' df =
      Ok (mkStats Summary (df_len df) (df_width df)
            (zip (df_names df) (dtype_name <$> df_dtypes df))
            (isna_sum df)
            (sum_nat ((isna_sum df).*2))
            pct
            (Z.of_nat (count_true (duplicated df)))
            (head 10 (getitem_mask df (duplicated df)))
            (negb (df_empty (select_dtypes_number df)))
            (if negb (df_empty (select_dtypes_number df))
             then Some (summary_fmt_num (summary_round 2 (describe_number df)))
             else None)
            (head 10 df)
            (sum_Z (memory_usage_deep df)))
    ∧ (∀ encoding_used detected_delimiter,
         main_report' (df, encoding_used, detected_delimiter) =
           (mem_usage_human ← human_bytes (sum_Z (memory_usage_deep df));
            mret (mkReport Summary encoding_used detected_delimiter
                    (df_len df) (df_width df)
                    (zip (df_names df) (dtype_name <$> df_dtypes df))
                    (isna_sum df)
                    (sum_nat ((isna_sum df).*2))
                    pct
                    (Z.of_nat (count_true (duplicated df)))
                    (if (0 <? Z.of_nat (count_true (duplicated df)))%Z
                     then Some (head 10 (getitem_mask df (duplicated df)))
                     else None)
                    (if negb (df_empty (select_dtypes_number df))
                     then Some (summary_round 3 (describe_number df))
                     else None)
                    (head 10 df)
                    (sum_Z (memory_usage_deep df))
                    mem_usage_human)))
    ∧ (df_len df * df_width df = 0 → pct = 0%Q)
    ∧ (0 < df_len df * df_width df →
       pct = Float64.mul
               (Float64.round
                  (inject_Z (sum_nat ((isna_sum df).*2))
                   / inject_Z (Z.of_nat (df_len df * df_width df)))) 100)
    ∧ (0 <= pct <= 100)%Q.
Proof.
  intros Hdf.
  destruct (percentage_of_frame df Hdf)
    as (pct & Hpct & Hzero & Hpos & Hlo & Hhi).
  exists pct. split_and!; try done.
  - unfold compute_stats. cbv zeta. by rewrite Hpct.
  - intros. unfold main_report. cbv zeta. by rewrite Hpct.
Qed.


Lemma int_truediv_raises (a b : Z) (e : exn) :
  Float64.int_truediv a b = Raise e →
  e = ZeroDivisionError ∨ e = OverflowError.
Proof.
  unfold Float64.int_truediv. repeat case_match; intros [= <-]; auto.
Qed.

Lemma compute_stats_raises (df : DataFrame V) (e : exn) :
  compute_stats' df = Raise e → e = ZeroDivisionError ∨ e = OverflowError.
Proof.
  unfold compute_stats. cbv zeta.
  destruct (0 <? df_len df * df_width df); [|discriminate].
  destruct (Float64.int_truediv _ _) as [q|e'] eqn:Hdiv; [discriminate|].
  intros [= <-]. by eapply int_truediv_raises.
Qed.

Lemma human_bytes_raises (num : Z) (e : exn) :
  human_bytes num = Raise e → e = OverflowError.
Proof.
  unfold human_bytes, Float64.of_int. cbv zeta.
  case_match; [|discriminate]. by intros [= <-].
Qed.

(** The route, once the upload is not blank: the decoded text goes to the
    parser, the table to the profiler, and any exception to the handlers. *)
Lemma analyze_after_decoding (filename : string) (data_bytes : bytes) :
  is_blank data_bytes = false →
  ∃ (text : str) (encoding_used : string) (detected_delimiter : str),
    (Codec.decode data_bytes "utf-8" = Ok text
     ∨ Codec.decode data_bytes "utf-8" = Raise UnicodeDecodeError
       ∧ Codec.decode data_bytes "latin-1" = Ok text)
    ∧ analyze' filename data_bytes =
        let handlers (e : exn) : Response Summary :=
          match e with
          | EmptyDataError _ =>
            index_page "The CSV appears to be empty or has no columns." 400
          | ParserError msg =>
            index_page ("Failed to parse CSV: " +:+ msg) 400
          | UnicodeDecodeError =>
            index_page
              "Failed to decode the file. Try saving as UTF-8 or Latin-1." 400
          | _ =>
            index_page
              "An unexpected error occurred while analyzing the file." 500
          end in
        match python_parser text None with
        | Raise e => handlers e
        | Ok df =>
          match compute_stats' df with
          | Raise e => handlers e
          | Ok stats =>
            match human_bytes (mem_usage_bytes stats) with
            | Raise e => handlers e
            | Ok mem_usage_human =>
              results_page
                (mkResultsContext Summary filename encoding_used
                   detected_delimiter stats
                   (round2 (overall_missing_pct stats))
                   (if (0 <? duplicates_count stats)%Z
                    then Some (dup_preview_df stats) else None)
                   (if has_numeric stats then numeric_summary_df stats else None)
                   mem_usage_human)
                200
            end
          end
        end.
Proof.
  intros Hblank.
  destruct (ingestion_after_decoding data_bytes)
    as (text & enc & Hdec & _ & _ & Hweb & _).
  exists text, enc. eexists. split.
  { destruct Hdec as [(_ & ? & _) | (_ & ? & ? & _)]; auto. }
  unfold analyze. rewrite Hblank, Hweb, sniff_delimiter_returns.
  cbn [mbind result_bind mret result_ret read_csv].
  destruct (python_parser text None) as [df|e]; [|reflexivity].
  cbn [mbind result_bind mret result_ret].
  destruct (compute_stats' df) as [stats|e]; [|reflexivity].
  cbn [mbind result_bind mret result_ret].
  destruct (human_bytes (mem_usage_bytes stats)); reflexivity.
Qed.

(** A blank upload never reaches the parser. *)
Lemma blank_upload_is_rejected (filename : string) (data_bytes : bytes) :
  is_blank data_bytes = true →
  analyze' filename data_bytes = index_page "Uploaded file is empty." 400.
Proof. intros Hblank. unfold analyze. by rewrite Hblank. Qed.

(** C4 (as amended).  A non-blank upload is answered with the "empty or has
    no columns" page exactly when the parser raises [EmptyDataError] on the
    decoded text.  When the parser returns a table without any cell (no rows
    after the header), the route renders the results page with [rows = 0] and
    an overall missing percentage of 0. *)
Theorem analyze_empty_data_error_iff_parser_raises
    (filename : string) (data_bytes : bytes) :
  is_blank data_bytes = false →
  ∃ text : str,
    (Codec.decode data_bytes "utf-8" = Ok text
     ∨ Codec.decode data_bytes "utf-8" = Raise UnicodeDecodeError
       ∧ Codec.decode data_bytes "latin-1" = Ok text)
    ∧ (analyze' filename data_bytes
         = index_page "The CSV appears to be empty or has no columns." 400
       ↔ ∃ msg, python_parser text None = Raise (EmptyDataError msg))
    ∧ ∀ df : DataFrame V,
        python_parser text None = Ok df →
        df_len df * df_width df = 0 →
        (0 ≤ sum_Z (memory_usage_deep df) < 2 ^ 1024 - 2 ^ 970)%Z →
        ∃ context,
          analyze' filename data_bytes = results_page context 200
          ∧ rows (ctx_stats context) = df_len df
          ∧ cols (ctx_stats context) = df_width df
          ∧ overall_missing_pct (ctx_stats context) = 0%Q
          ∧ ctx_overall_missing_pct context = 0%Q.
Proof.
  intros Hblank.
  destruct (analyze_after_decoding filename data_bytes Hblank)
    as (text & enc & d & Hdec & Hroute).
  exists text. split; [exact Hdec|]. cbv zeta in Hroute. split.
  - rewrite Hroute. split.
    + destruct (python_parser text None) as [df|e].
      * destruct (compute_stats' df) as [stats|e] eqn:Hstats.
        -- destruct (human_bytes (mem_usage_bytes stats)) as [h|e] eqn:Hh;
             [discriminate|].
           apply human_bytes_raises in Hh as ->. discriminate.
        -- apply compute_stats_raises in Hstats as [-> | ->]; discriminate.
      * destruct e; try discriminate. eauto.
    + intros [msg ->]. reflexivity.
  - intros df Hparse Hzero Hmem. rewrite Hroute, Hparse.
    destruct (compute_stats_returns df (or_intror Hzero))
      as (pct & -> & _ & Hpct & _).
    cbn [mem_usage_bytes].
    destruct (human_bytes_in_float_range _ Hmem)
      as (f & i & unit & _ & _ & -> & _).
    eexists. split; [reflexivity|]. cbn.
    rewrite (Hpct Hzero). split_and!; reflexivity.
Qed.


(** C5.  For every table, the profiler returns; [overall_missing] is the
    number of missing cells of the table; [overall_missing_pct] is 0.0 when
    [rows * cols = 0] (no division is attempted) and otherwise the float
    quotient [overall_missing / (rows * cols)] times 100.0; in both cases it
    lies between 0 and 100.  The command-line report carries the same two
    values. *)
Theorem overall_missing_pct_between_0_and_100 (df : DataFrame V) :
  well_formed df →
  ∃ stats,
    compute_stats' df = Ok stats
    ∧ rows stats = df_len df
    ∧ cols stats = df_width df
    ∧ overall_missing stats
      = Z.of_nat (count_true (isna <$> concat (df_rows df)))
    ∧ (rows stats * cols stats = 0 → overall_missing_pct stats = 0%Q)
    ∧ (0 < rows stats * cols stats →
       overall_missing_pct stats
       = Float64.mul
           (Float64.round
              (inject_Z (overall_missing stats)
               / inject_Z (Z.of_nat (rows stats * cols stats)))) 100)
    ∧ (0 <= overall_missing_pct stats <= 100)%Q
    ∧ ∀ encoding_used detected_delimiter report,
        main_report' (df, encoding_used, detected_delimiter) = Ok report →
        rep_overall_missing report = overall_missing stats
        ∧ rep_overall_missing_pct report = overall_missing_pct stats.
Proof.
  intros Hwf.
  destruct (compute_stats_returns df (or_introl Hwf))
    as (pct & Hstats & Hreport & Hzero & Hpos & Hrange).
  eexists. split; [exact Hstats|].
  cbn [rows cols overall_missing overall_missing_pct].
  split_and!; try done.
  - by apply missing_in_frame.
  - apply Hrange.
  - apply Hrange.
  - intros enc d report. rewrite Hreport.
    destruct (human_bytes _); [|discriminate]. by intros [= <-].
Qed.

(** C6.  For every table, [duplicates_count] is the number of row positions
    at which the row equals some earlier row (so the first occurrence of a
    row is never counted and every later repeat is), and the duplicate
    preview consists of the first at most 10 of those rows, in the order of
    their positions.  The command-line report carries the same values. *)
Theorem duplicates_are_later_repeats (df : DataFrame V) :
  well_formed df →
  ∃ stats (repeats : list nat),
    compute_stats' df = Ok stats
    ∧ (∀ i, i ∈ repeats ↔
         i < length (df_rows df)
         ∧ ∃ j, j < i ∧ df_rows df !! j = df_rows df !! i)
    ∧ StronglySorted lt repeats
    ∧ duplicates_count stats = Z.of_nat (length repeats)
    ∧ df_rows (dup_preview_df stats) = take 10 (df_row df <$> repeats)
    ∧ length (df_rows (dup_preview_df stats)) ≤ 10
    ∧ ∀ encoding_used detected_delimiter report,
        main_report' (df, encoding_used, detected_delimiter) = Ok report →
        rep_duplicates_count report = duplicates_count stats
        ∧ rep_dup_preview report
          = if (0 <? duplicates_count stats)%Z
            then Some (dup_preview_df stats) else None.
Proof.
  intros Hwf.
  destruct (compute_stats_returns df (or_introl Hwf))
    as (pct & Hstats & Hreport & _).
  eexists. exists (true_positions (duplicated df)).
  split; [exact Hstats|]. cbn [duplicates_count dup_preview_df].
  assert (df_rows (head 10 (getitem_mask df (duplicated df)))
          = take 10 (df_row df <$> true_positions (duplicated df))) as Hpreview.
  { apply df_rows_head_take_rows.
    destruct (df_columns df) eqn:Hcols; [right|by left].
    by apply no_columns_no_duplicates. }
  split_and!.
  - intros i. by rewrite elem_of_true_positions, duplicated_spec.
  - apply true_positions_sorted.
  - by rewrite length_true_positions.
  - exact Hpreview.
  - rewrite Hpreview, length_take. lia.
  - intros enc d report. rewrite Hreport.
    destruct (human_bytes _); [|discriminate]. by intros [= <-].
Qed.

End ProfilerFacts.

(** *** The examples of the specification *)

Lemma overall_missing_pct_between_0_and_100_witness :
  ∃ stats,
    compute_stats unit (λ _, tt) (λ _ s, s) (λ s, s) (λ _, [132%Z])
      one_missing_cell = Ok stats
    ∧ overall_missing stats = 1%Z
    ∧ (0 <= overall_missing_pct stats <= 100)%Q.
Proof.
  destruct (overall_missing_pct_between_0_and_100
              unit (λ _, tt) (λ _ s, s) (λ s, s) (λ _, [132%Z]) one_missing_cell)
    as (stats & Hstats & _ & _ & Hmissing & _ & _ & Hrange & _).
  - repeat constructor.
  - exists stats. split_and!; [exact Hstats | exact Hmissing | apply Hrange..].
Defined.

Lemma duplicates_are_later_repeats_witness :
  ∃ stats,
    compute_stats unit (λ _, tt) (λ _ s, s) (λ s, s) (λ _, [132%Z])
      twice_the_same_row = Ok stats
    ∧ duplicates_count stats = 1%Z
    ∧ df_rows (dup_preview_df stats) = [[Some 1%Z; Some 2%Z]].
Proof.
  destruct (duplicates_are_later_repeats
              unit (λ _, tt) (λ _ s, s) (λ s, s) (λ _, [132%Z]) twice_the_same_row)
    as (stats & repeats & Hstats & _).
  - repeat constructor.
  - exists stats. split; [exact Hstats|].
    vm_compute in Hstats. injection Hstats as <-. split; reflexivity.
Defined.

Lemma analyze_empty_data_error_iff_parser_raises_witness :
  ∃ context,
    analyze first_candidate_sniffer comma_reader no_c_parser
      unit (λ _, tt) (λ _ s, s) (λ s, s) (λ _, [132%Z])
      "data.csv" (b ("a,b" +:+ LF)) = results_page context 200
    ∧ rows (ctx_stats context) = 0
    ∧ overall_missing_pct (ctx_stats context) = 0%Q.
Proof.
  destruct (analyze_empty_data_error_iff_parser_raises
              first_candidate_sniffer comma_reader no_c_parser
              unit (λ _, tt) (λ _ s, s) (λ s, s) (λ _, [132%Z])
              "data.csv" (b ("a,b" +:+ LF)) eq_refl)
    as (text & Hdec & _ & Hzero).
  destruct Hdec as [Hdec | [Hdec _]]; [|discriminate Hdec].
  vm_compute in Hdec. injection Hdec as <-.
  destruct (Hzero (mkDataFrame [mkColumn (lit "a") object_ [];
                                mkColumn (lit "b") object_ []]))
    as (context & Hpage & Hrows & _ & Hpct & _).
  - reflexivity.
  - reflexivity.
  - split; [by vm_compute | reflexivity].
  - exists context. split_and!; [exact Hpage | exact Hrows | exact Hpct].
Defined.

(** C4 as stated fails: an upload holding a header and no record decodes
    and parses to a table without rows, and the route does not answer with
    the empty-data page but renders a report (status 200) with [rows = 0],
    [cols = 2] and an overall missing percentage of 0. *)
Lemma header_only_upload_is_profiled :
  ∃ context,
    analyze first_candidate_sniffer comma_reader no_c_parser
      unit (λ _, tt) (λ _ s, s) (λ s, s) (λ _, [132%Z])
      "data.csv" (b ("a,b" +:+ LF)) = results_page context 200
    ∧ rows (ctx_stats context) = 0
    ∧ cols (ctx_stats context) = 2
    ∧ overall_missing_pct (ctx_stats context) = 0%Q
    ∧ ctx_mem_usage_human context = "132.00 B".
Proof. eexists. split; [vm_compute; reflexivity|]. split_and!; reflexivity. Qed.

(** * Further properties *)

(** ** More on [human_bytes] *)

Lemma format_2f_proper (x y : Q) :
  (x == y)%Q → Float64.format_2f x = Float64.format_2f y.
Proof.
  intros Hxy. unfold Float64.format_2f.
  assert (Float64.rne (x * 100) = Float64.rne (y * 100)) as ->
    by (apply rne_proper; by rewrite Hxy).
  assert (Qle_bool 0 x = Qle_bool 0 y) as ->; [|done].
  destruct (Qle_bool 0 x) eqn:Hx, (Qle_bool 0 y) eqn:Hy; try done.
  - apply Qle_bool_iff in Hx. rewrite Hxy in Hx. apply Qle_bool_iff in Hx.
    congruence.
  - apply Qle_bool_iff in Hy. rewrite <- Hxy in Hy. apply Qle_bool_iff in Hy.
    congruence.
Qed.

Lemma rne_hundredfold (n : Z) : Float64.rne (inject_Z n * 100) = (n * 100)%Z.
Proof.
  rewrite <- (rne_inject_Z (n * 100)). apply rne_proper.
  rewrite inject_Z_mult. reflexivity.
Qed.

(** A whole number is printed with ".00". *)
Lemma format_2f_whole (n : Z) :
  (0 ≤ n)%Z → Float64.format_2f (inject_Z n) = pretty n +:+ ".00".
Proof.
  intros Hn. unfold Float64.format_2f. rewrite rne_hundredfold.
  replace (Qle_bool 0 (inject_Z n)) with true.
  2:{ symmetry. apply Qle_bool_iff. change 0%Q with (inject_Z 0).
      rewrite <- Zle_Qle. lia. }
  rewrite Z.abs_eq by lia.
  rewrite Z.div_mul, Z.mod_mul by lia. reflexivity.
Qed.

Lemma format_2f_negative_whole (n : Z) :
  (0 < n)%Z → Float64.format_2f (inject_Z (- n)) = "-" +:+ pretty n +:+ ".00".
Proof.
  intros Hn. unfold Float64.format_2f. rewrite rne_hundredfold.
  replace (Qle_bool 0 (inject_Z (- n))) with false.
  2:{ symmetry. apply not_true_is_false. intros Hle.
      apply Qle_bool_iff in Hle. change 0%Q with (inject_Z 0) in Hle.
      rewrite <- Zle_Qle in Hle. lia. }
  replace (Z.abs (- n * 100)) with (n * 100)%Z by lia.
  rewrite Z.div_mul, Z.mod_mul by lia. reflexivity.
Qed.

(** The float of an integer reaches a power of 1024 (up to 2^53) exactly
    when the integer does. *)
Lemma float_reaches_threshold (T num : Z) :
  (0 < T ≤ 2 ^ 53)%Z → (0 ≤ num)%Z →
  (inject_Z T <= Float64.round (inject_Z num))%Q ↔ (T ≤ num)%Z.
Proof.
  intros HT Hnum. split.
  - intros Hle. destruct (Z_le_gt_dec T num) as [|Hgt]; [done|exfalso].
    assert (Float64.round (inject_Z num) <= inject_Z (T - 1))%Q as Hup.
    { rewrite <- (round_inject_Z_exact (T - 1)) by lia.
      apply round_le. rewrite <- Zle_Qle. lia. }
    assert (inject_Z T <= inject_Z (T - 1))%Q as Habs by lra.
    rewrite <- Zle_Qle in Habs. lia.
  - intros Hle. rewrite <- (round_inject_Z_exact T) by lia.
    apply round_le. rewrite <- Zle_Qle. lia.
Qed.

Lemma string_app_assoc (a b c : string) : (a +:+ b) +:+ c = a +:+ b +:+ c.
Proof.
  induction a as [|x a IH]; [done|].
  change (String x ((a +:+ b) +:+ c) = String x (a +:+ b +:+ c)).
  by rewrite IH.
Qed.

Lemma Qle_div_iff (a b c : Q) :
  (0 < c)%Q → (a <= b / c)%Q ↔ (a * c <= b)%Q.
Proof.
  intros Hc. split; [|by apply Qle_shift_div_l].
  intros Hle. apply (Qmult_le_compat_r _ _ c) in Hle; [|lra].
  assert (b / c * c == b)%Q as Heq by (field; lra). by rewrite Heq in Hle.
Qed.

Lemma Qdiv_lt_iff (a b c : Q) :
  (0 < c)%Q → (b / c < a)%Q ↔ (b < a * c)%Q.
Proof.
  intros Hc. split; [|by apply Qlt_shift_div_r].
  intros Hlt. apply (Qmult_lt_compat_r _ _ c) in Hlt; [|done].
  assert (b / c * c == b)%Q as Heq by (field; lra). by rewrite Heq in Hlt.
Qed.

Lemma pow1024_inject (k : nat) :
  (inject_Z (1024 ^ Z.of_nat k) == 1024 ^ Z.of_nat k)%Q.
Proof. apply Zpower_Qpower. lia. Qed.

Lemma pow1024_below_2_53 (k : nat) :
  k ≤ 4 → (0 < 1024 ^ Z.of_nat k ≤ 2 ^ 53)%Z.
Proof.
  intros Hk. split; [apply Z.pow_pos_nonneg; lia|].
  transitivity (1024 ^ 4)%Z; [apply Z.pow_le_mono_r; lia | done].
Qed.

(** What the run of [human_bytes] says about the integer itself: the loop
    leaves index [i] exactly for the inputs between [1024^i] and
    [1024^(i+1)]. *)
Lemma human_bytes_index_by_magnitude (num : Z) :
  (0 ≤ num < 2 ^ 1024 - 2 ^ 970)%Z →
  ∃ (f : Q) (i : nat),
    human_bytes num = Ok (Float64.format_2f f +:+ " " +:+ symbols !!! i)
    ∧ i ≤ 4
    ∧ (f == Float64.round (inject_Z num) / 1024 ^ Z.of_nat i)%Q
    ∧ (0 < i → (1024 ^ Z.of_nat i ≤ num)%Z ∧ (1 <= f)%Q)
    ∧ (i < 4 → (num < 1024 ^ Z.of_nat (i + 1))%Z ∧ (f < 1024)%Q)
    ∧ (0 <= f)%Q.
Proof.
  intros Hnum.
  destruct (human_bytes_in_float_range num Hnum)
    as (f & i & unit & _ & _ & Hstr & _ & Hi & Hunit & Hval & Hstop & Hmin).
  cbv zeta in *. set (f0 := Float64.round (inject_Z num)) in *.
  assert (0 <= f0)%Q as Hf0.
  { apply round_nonneg. change 0%Q with (inject_Z 0). rewrite <- Zle_Qle. lia. }
  exists f, i. split_and!; try done.
  - by rewrite (list_lookup_total_correct _ _ _ Hunit).
  - intros Hpos. destruct i as [|i]; [lia|].
    specialize (Hmin i ltac:(lia)).
    pose proof (pow1024_pos i) as Pi.
    assert (1024 ^ Z.of_nat (S i) <= f0)%Q as Hge.
    { rewrite pow1024_succ. apply Qle_div_iff in Hmin; [lra | done]. }
    split.
    + apply (float_reaches_threshold _ num); [by apply pow1024_below_2_53|lia|].
      by rewrite pow1024_inject.
    + rewrite Hval. apply Qle_shift_div_l; [apply pow1024_pos|]. lra.
  - intros Hlt. destruct Hstop as [Hstop|]; [|lia]. split; [|done].
    rewrite Hval in Hstop. pose proof (pow1024_pos i) as Pi.
    apply Qdiv_lt_iff in Hstop; [|done].
    destruct (Z_lt_ge_dec num (1024 ^ Z.of_nat (i + 1))) as [|Hge]; [done|].
    exfalso.
    assert (inject_Z (1024 ^ Z.of_nat (i + 1)) <= f0)%Q as Hreach.
    { apply float_reaches_threshold; [apply pow1024_below_2_53|..]; lia. }
    rewrite pow1024_inject in Hreach.
    replace (i + 1) with (S i) in Hreach by lia.
    rewrite pow1024_succ in Hreach. lra.
  - rewrite Hval. apply Qle_shift_div_l; [apply pow1024_pos|]. lra.
Qed.

(** X1.  The unit is chosen by the size of the number: below 1024 bytes, then
    one unit per factor of 1024, and TB from 1024^4 upwards. *)
Theorem human_bytes_unit_by_magnitude (num : Z) :
  (0 ≤ num < 2 ^ 1024 - 2 ^ 970)%Z →
  ∃ (f : Q) (unit : string),
    human_bytes num = Ok (Float64.format_2f f +:+ " " +:+ unit)
    ∧ ((num < 1024)%Z → unit = "B")
    ∧ ((1024 ≤ num < 1024 ^ 2)%Z → unit = "KB")
    ∧ ((1024 ^ 2 ≤ num < 1024 ^ 3)%Z → unit = "MB")
    ∧ ((1024 ^ 3 ≤ num < 1024 ^ 4)%Z → unit = "GB")
    ∧ ((1024 ^ 4 ≤ num)%Z → unit = "TB").
Proof.
  intros Hnum.
  destruct (human_bytes_index_by_magnitude num Hnum)
    as (f & i & Hstr & Hi & _ & Hlow & Hhigh & _).
  exists f, (symbols !!! i). split; [exact Hstr|].
  assert (0 < i → (1024 ^ Z.of_nat i ≤ num)%Z) as Hlow' by (intros; by apply Hlow).
  assert (i < 4 → (num < 1024 ^ Z.of_nat (i + 1))%Z) as Hhigh'
    by (intros; by apply Hhigh).
  clear Hlow Hhigh Hstr.
  destruct i as [|[|[|[|[|i]]]]]; [..|lia]; cbn in Hlow', Hhigh';
    split_and!; intros; try reflexivity; exfalso; lia.
Qed.

Lemma human_bytes_unit_by_magnitude_witness :
  ∃ (f : Q) (unit : string),
    human_bytes 5242880 = Ok (Float64.format_2f f +:+ " " +:+ unit)
    ∧ unit = "MB".
Proof.
  destruct (human_bytes_unit_by_magnitude 5242880)
    as (f & unit & Hstr & _ & _ & Hmb & _).
  - split; [lia | reflexivity].
  - exists f, unit. split; [exact Hstr|]. apply Hmb. split; [lia | reflexivity].
Defined.



(** X3.  A count below 1024 is printed as it is, with two zero decimals and
    the unit B. *)
Theorem human_bytes_below_1024_is_exact (num : Z) :
  (0 ≤ num < 1024)%Z → human_bytes num = Ok (pretty num +:+ ".00 B").
Proof.
  intros Hnum. unfold human_bytes. cbv zeta.
  rewrite of_int_in_range.
  2:{ split; [lia|]. apply (Z.lt_trans _ 1024); [lia | reflexivity]. }
  cbn [mbind result_bind mret result_ret].
  assert (Float64.round (inject_Z num) == inject_Z num)%Q as Hexact.
  { apply round_inject_Z_exact. split; [lia|].
    apply (Z.le_trans _ 1024); [lia | done]. }
  rewrite human_bytes_loop_eq.
  replace (human_bytes_cond _) with false.
  2:{ symmetry. unfold human_bytes_cond, Float64.ge. cbn [fst snd].
      apply andb_false_intro1. apply not_true_is_false. intros Hge.
      apply Qle_bool_iff in Hge. rewrite Hexact in Hge.
      change 1024%Q with (inject_Z 1024) in Hge. rewrite <- Zle_Qle in Hge. lia. }
  cbn [fst snd]. rewrite (format_2f_proper _ _ Hexact), format_2f_whole by lia.
  by rewrite string_app_assoc.
Qed.

Lemma human_bytes_below_1024_is_exact_witness :
  human_bytes 1023 = Ok "1023.00 B".
Proof. apply (human_bytes_below_1024_is_exact 1023). lia. Defined.

Lemma round_opp (x : Q) : (Float64.round (- x) == - Float64.round x)%Q.
Proof.
  destruct (Qlt_le_dec 0 x) as [Hx|Hx].
  - rewrite (round_of_neg (- x)) by lra. rewrite (round_of_pos x) by done.
    assert (- - x == x)%Q as Hinv by ring.
    assert (0 < - - x)%Q as Hpos by lra.
    by rewrite (round_pos_proper _ _ Hpos Hinv).
  - destruct (Qlt_le_dec x 0) as [Hx'|Hx'].
    + rewrite (round_of_pos (- x)) by lra. rewrite (round_of_neg x) by done.
      ring.
    + rewrite (round_of_zero x) by lra. rewrite (round_of_zero (- x)) by lra.
      reflexivity.
Qed.

Lemma overflows_spec (f : Q) :
  Float64.overflows f = true ↔ (2 ^ 1024 <= f)%Q ∨ (f <= - 2 ^ 1024)%Q.
Proof.
  unfold Float64.overflows. rewrite orb_true_iff, !Qle_bool_iff. reflexivity.
Qed.

Lemma round_of_large_int (num : Z) :
  (2 ^ 1024 - 2 ^ 970 ≤ num)%Z → (2 ^ 1024 <= Float64.round (inject_Z num))%Q.
Proof.
  intros Hnum.
  apply (Qle_trans _ (Float64.round (inject_Z (2 ^ 1024 - 2 ^ 970)))).
  - by vm_compute.
  - apply round_le. rewrite <- Zle_Qle. lia.
Qed.

(** X4.  From 2^1024 - 2^970 on, in either direction, the conversion to a
    float fails and [human_bytes] raises [OverflowError]. *)
Theorem human_bytes_overflow (num : Z) :
  (2 ^ 1024 - 2 ^ 970 ≤ Z.abs num)%Z → human_bytes num = Raise OverflowError.
Proof.
  intros Hnum. unfold human_bytes, Float64.of_int. cbv zeta.
  replace (Float64.overflows _) with true; [done|].
  symmetry. apply overflows_spec.
  destruct (Z_le_gt_dec 0 num) as [Hpos|Hneg].
  - left. apply round_of_large_int. lia.
  - right.
    assert (inject_Z num == - inject_Z (- num))%Q as ->
      by (rewrite inject_Z_opp; ring).
    rewrite round_opp.
    pose proof (round_of_large_int (- num) ltac:(lia)). lra.
Qed.

Lemma human_bytes_overflow_witness :
  human_bytes (- 2 ^ 1024) = Raise OverflowError.
Proof. apply (human_bytes_overflow (- 2 ^ 1024)). by vm_compute. Defined.

(** X5.  A negative count is never scaled: it is printed whole, with the unit
    B, however large it is. *)
Theorem human_bytes_negative_is_not_scaled (num : Z) :
  (- 2 ^ 53 ≤ num < 0)%Z →
  human_bytes num = Ok ("-" +:+ pretty (- num)%Z +:+ ".00 B").
Proof.
  intros Hnum. unfold human_bytes, Float64.of_int. cbv zeta.
  assert (Float64.round (inject_Z num) == inject_Z num)%Q as Hexact.
  { assert (inject_Z num == - inject_Z (- num))%Q as Hopp
      by (rewrite inject_Z_opp; ring).
    rewrite Hopp at 1. rewrite round_opp, round_inject_Z_exact by lia.
    by rewrite Hopp. }
  assert (inject_Z num < 0)%Q as Hneg.
  { change 0%Q with (inject_Z 0). rewrite <- Zlt_Qlt. lia. }
  assert (- inject_Z (2 ^ 53) <= inject_Z num)%Q as Hlow.
  { rewrite <- inject_Z_opp, <- Zle_Qle. lia. }
  replace (Float64.overflows _) with false.
  2:{ symmetry. apply not_true_is_false. intros Hov.
      apply overflows_spec in Hov. rewrite Hexact in Hov.
      assert (inject_Z (2 ^ 53) < 2 ^ 1024)%Q by (by vm_compute).
      destruct Hov; lra. }
  cbn [mbind result_bind mret result_ret].
  rewrite human_bytes_loop_eq.
  replace (human_bytes_cond _) with false.
  2:{ symmetry. unfold human_bytes_cond, Float64.ge. cbn [fst snd].
      apply andb_false_intro1. apply not_true_is_false. intros Hge.
      apply Qle_bool_iff in Hge. rewrite Hexact in Hge. lra. }
  cbn [fst snd]. rewrite (format_2f_proper _ _ Hexact).
  replace num with (- - num)%Z at 1 by lia.
  rewrite format_2f_negative_whole by lia.
  by rewrite !string_app_assoc.
Qed.

Lemma human_bytes_negative_is_not_scaled_witness :
  human_bytes (-2048) = Ok "-2048.00 B".
Proof. apply (human_bytes_negative_is_not_scaled (-2048)). split; [by vm_compute | lia]. Defined.

(** ** More on ingestion *)




(** X7.  The displayed delimiter depends on the first 10,000 characters of
    the decoded text only: two uploads whose texts agree on that prefix get
    the same detected delimiter. *)
Theorem detected_delimiter_depends_on_sample_only {V : Type}
    (sniff : str → list str → result Dialect)
    (parser : str → option str → result (DataFrame V))
    (cparser : str → option str → bool → result (DataFrame V))
    (data1 data2 : bytes) (text1 text2 : str)
    (r1 r2 : DataFrame V * string * str) :
  (Codec.decode data1 "utf-8" = Ok text1
   ∨ Codec.decode data1 "utf-8" = Raise UnicodeDecodeError
     ∧ Codec.decode data1 "latin-1" = Ok text1) →
  (Codec.decode data2 "utf-8" = Ok text2
   ∨ Codec.decode data2 "utf-8" = Raise UnicodeDecodeError
     ∧ Codec.decode data2 "latin-1" = Ok text2) →
  take sample_size text1 = take sample_size text2 →
  parse_csv_bytes sniff parser cparser data1 = Ok r1 →
  parse_csv_bytes sniff parser cparser data2 = Ok r2 →
  r1.2 = r2.2.
Proof.
  intros Hdec1 Hdec2 Hsample Hrun1 Hrun2.
  assert (∀ data text (r : DataFrame V * string * str),
            (Codec.decode data "utf-8" = Ok text
             ∨ Codec.decode data "utf-8" = Raise UnicodeDecodeError
               ∧ Codec.decode data "latin-1" = Ok text) →
            parse_csv_bytes sniff parser cparser data = Ok r →
            sniff_delimiter sniff (take sample_size text) = Ok r.2) as Hone.
  { intros data text r Hdec Hrun.
    destruct (ingestion_after_decoding data)
      as (text' & enc & Hdec' & _ & _ & Hweb & _).
    assert (text' = text) as ->.
    { destruct Hdec as [H1 | [H1 H2]], Hdec' as [(_ & H3 & _) | (_ & H3 & H4 & _)];
        congruence. }
    rewrite Hweb in Hrun. rewrite sniff_delimiter_returns in Hrun |- *.
    cbn [mbind result_bind mret result_ret] in Hrun.
    destruct (read_csv parser cparser text None engine_python true);
      [|discriminate].
    cbn [mbind result_bind mret result_ret] in Hrun. by injection Hrun as <-. }
  pose proof (Hone _ _ _ Hdec1 Hrun1) as H1.
  pose proof (Hone _ _ _ Hdec2 Hrun2) as H2.
  rewrite Hsample in H1. congruence.
Qed.

Lemma detected_delimiter_depends_on_sample_only_witness :
  ∃ df1 df2 d,
    parse_csv_bytes first_candidate_sniffer comma_reader no_c_parser
      (b ("a;b" +:+ LF) ++ [xc3; xa9])
      = Ok (df1, "utf-8", d)
    ∧ parse_csv_bytes first_candidate_sniffer comma_reader no_c_parser
        (b ("a;b" +:+ LF) ++ [xe9])
      = Ok (df2, "latin-1", d).
Proof.
  set (data1 := b ("a;b" +:+ LF) ++ [xc3; xa9]).
  set (data2 := b ("a;b" +:+ LF) ++ [xe9]).
  destruct (parse_csv_bytes first_candidate_sniffer comma_reader no_c_parser
              data1) as [r1|] eqn:Hrun1; [|by vm_compute in Hrun1].
  destruct (parse_csv_bytes first_candidate_sniffer comma_reader no_c_parser
              data2) as [r2|] eqn:Hrun2; [|by vm_compute in Hrun2].
  pose proof (detected_delimiter_depends_on_sample_only
                first_candidate_sniffer comma_reader no_c_parser
                data1 data2 (lit ("a;b" +:+ LF) ++ [233%N])
                (lit ("a;b" +:+ LF) ++ [233%N]) r1 r2
                ltac:(left; by vm_compute)
                ltac:(right; split; by vm_compute)
                eq_refl Hrun1 Hrun2) as Hsame.
  vm_compute in Hrun1. vm_compute in Hrun2.
  injection Hrun1 as <-. injection Hrun2 as <-.
  eexists _, _, _. split; reflexivity.
Defined.

(** ** More on the profiler *)

Section MoreFrameFacts.
Context {V : Type} `{EqDecision V}.
Implicit Types (df : DataFrame V) (c : Column V) (rws : list (list (Cell V))).

Lemma remove_dups_cons_length {A} `{EqDecision A} (x : A) (l : list A) :
  length (remove_dups (x :: l))
  = S (length (remove_dups (filter (λ y, y ≠ x) l))).
Proof.
  change (S (length (remove_dups (filter (λ y, y ≠ x) l))))
    with (length (x :: remove_dups (filter (λ y, y ≠ x) l))).
  apply Permutation_length, NoDup_Permutation.
  - apply NoDup_remove_dups.
  - constructor; [|apply NoDup_remove_dups].
    rewrite elem_of_remove_dups, list_elem_of_filter. tauto.
  - intros y. rewrite elem_of_remove_dups, !elem_of_cons, elem_of_remove_dups,
      list_elem_of_filter.
    destruct (decide (y = x)); tauto.
Qed.

(** Marked rows and distinct new rows add up to all rows. *)
Lemma duplicated_from_count (rws seen : list (list (Cell V))) :
  count_true (duplicated_from seen rws)
  + length (remove_dups (filter (λ r, r ∉ seen) rws))
  = length rws.
Proof.
  revert seen. induction rws as [|r rws IH]; intros seen; [done|].
  cbn [duplicated_from length]. rewrite count_true_cons, filter_cons.
  specialize (IH (r :: seen)).
  destruct (decide (r ∈ seen)) as [Hin|Hnin].
  - rewrite bool_decide_eq_true_2 by done.
    rewrite decide_False by tauto.
    rewrite (filter_ext_elem_of (λ x, x ∉ seen) (λ x, x ∉ r :: seen)).
    + lia.
    + intros x _. rewrite elem_of_cons. split; [|tauto].
      intros Hx [-> | ?]; tauto.
  - rewrite bool_decide_eq_false_2 by done.
    rewrite decide_True by done.
    rewrite remove_dups_cons_length, list_filter_filter.
    rewrite (filter_ext_elem_of (λ x, x ≠ r ∧ x ∉ seen) (λ x, x ∉ r :: seen)).
    + lia.
    + intros x _. rewrite elem_of_cons. tauto.
Qed.

Lemma duplicated_count df :
  count_true (duplicated df) + length (remove_dups (df_rows df))
  = length (df_rows df).
Proof.
  unfold duplicated.
  assert (∀ rws : list (list (Cell V)), filter (λ r, r ∉ []) rws = rws) as Hall.
  { induction rws as [|r rws IH]; [done|].
    rewrite filter_cons, decide_True by apply not_elem_of_nil. by rewrite IH. }
  pose proof (duplicated_from_count (df_rows df) []) as Hcount.
  by rewrite Hall in Hcount.
Qed.


Lemma no_mark_iff_NoDup df :
  count_true (duplicated df) = 0 ↔ NoDup (df_rows df).
Proof.
  rewrite <- length_true_positions, length_zero_iff_nil. split.
  - intros Hnone. apply NoDup_alt. intros i j r Hi Hj.
    destruct (Nat.lt_trichotomy i j) as [Hlt | [-> | Hlt]]; [exfalso|done|exfalso].
    + assert (j ∈ true_positions (duplicated df)) as Hin.
      { apply elem_of_true_positions, duplicated_spec.
        split; [by eapply lookup_lt_Some|]. exists i. split; [done|congruence]. }
      rewrite Hnone in Hin. by apply elem_of_nil in Hin.
    + assert (i ∈ true_positions (duplicated df)) as Hin.
      { apply elem_of_true_positions, duplicated_spec.
        split; [by eapply lookup_lt_Some|]. exists j. split; [done|congruence]. }
      rewrite Hnone in Hin. by apply elem_of_nil in Hin.
  - intros Hnodup.
    destruct (true_positions (duplicated df)) as [|i rest] eqn:Hpos; [done|].
    exfalso.
    assert (i ∈ true_positions (duplicated df)) as Hin
      by (rewrite Hpos; apply list_elem_of_here).
    apply elem_of_true_positions, duplicated_spec in Hin as (Hi & j & Hj & Heq).
    destruct (lookup_lt_is_Some_2 _ _ Hi) as [r Hr].
    rewrite Hr in Heq.
    pose proof (NoDup_lookup _ _ _ _ Hnodup Heq Hr). lia.
Qed.

Lemma length_df_rows df : length (df_rows df) = df_len df.
Proof. unfold df_rows. by rewrite length_fmap, length_seq. Qed.

Lemma df_names_head (n : nat) df : df_names (head n df) = df_names df.
Proof.
  unfold df_names, head. cbn [df_columns].
  rewrite <- list_fmap_compose. by apply list_fmap_ext.
Qed.

Lemma df_dtypes_head (n : nat) df : df_dtypes (head n df) = df_dtypes df.
Proof.
  unfold df_dtypes, head. cbn [df_columns].
  rewrite <- list_fmap_compose. by apply list_fmap_ext.
Qed.

Lemma df_names_take_rows (positions : list nat) df :
  df_names (take_rows positions df) = df_names df
  ∧ df_dtypes (take_rows positions df) = df_dtypes df.
Proof.
  unfold df_names, df_dtypes, take_rows. cbn [df_columns].
  rewrite <- !list_fmap_compose. split; by apply list_fmap_ext.
Qed.

Lemma well_formed_head (n : nat) df : well_formed df → well_formed (head n df).
Proof.
  unfold well_formed, df_len, head. cbn [df_columns].
  destruct (df_columns df) as [|c columns]; [constructor|].
  intros Hwf. apply Forall_fmap. csimpl.
  eapply Forall_impl; [exact Hwf|].
  intros c' Hc'. csimpl in *. by rewrite !length_take, Hc'.
Qed.

(** The numeric part of a well-formed frame is empty exactly when the frame
    has no row or no numeric column. *)
Lemma numeric_part_empty df :
  well_formed df →
  df_empty (select_dtypes_number df) = false
  ↔ 0 < df_len df ∧ ∃ c, c ∈ df_columns df ∧ is_number (col_dtype c) = true.
Proof.
  intros Hwf. unfold df_empty, df_width, df_len, select_dtypes_number.
  cbn [df_columns].
  destruct (filter _ (df_columns df)) as [|c numeric] eqn:Hfilter.
  - split; [done|]. intros (_ & c & Hc & Hnum).
    assert (c ∈ filter (λ c, is_number (col_dtype c) = true) (df_columns df))
      as Hin by (by apply list_elem_of_filter).
    rewrite Hfilter in Hin. by apply elem_of_nil in Hin.
  - assert (c ∈ filter (λ c, is_number (col_dtype c) = true) (df_columns df))
      as Hin by (rewrite Hfilter; apply list_elem_of_here).
    apply list_elem_of_filter in Hin as [Hnum Hc].
    unfold well_formed in Hwf. rewrite Forall_forall in Hwf.
    rewrite (Hwf c Hc). fold (df_len df). cbn [length].
    rewrite orb_false_r, Nat.eqb_neq. split.
    + intros Hlen. split; [lia|]. eauto.
    + intros [Hlen _]. lia.
Qed.

Lemma count_missing_cells (cells : list (Cell V)) :
  count_true (isna <$> cells) = length (filter (λ cell, cell = None) cells).
Proof.
  induction cells as [|cell cells IH]; [done|].
  rewrite fmap_cons, count_true_cons, filter_cons, IH.
  destruct cell; cbn [isna]; case_decide; try done; simpl; lia.
Qed.

Lemma isna_sum_names df : (isna_sum df).*1 = df_names df.
Proof.
  unfold isna_sum, df_names. rewrite <- list_fmap_compose.
  by apply list_fmap_ext.
Qed.

Lemma isna_sum_bounded df :
  well_formed df → Forall (λ entry, entry.2 ≤ df_len df) (isna_sum df).
Proof.
  intros Hwf. unfold isna_sum. apply Forall_fmap.
  eapply Forall_impl; [exact Hwf|]. intros c Hc. cbn.
  pose proof (count_true_le (isna <$> col_cells c)) as Hle.
  by rewrite length_fmap, Hc in Hle.
Qed.

End MoreFrameFacts.

Section MoreProfilerFacts.
Context {V : Type} `{EqDecision V}.
Variable Summary : Type.
Variable describe_number : DataFrame V → Summary.
Variable summary_round : nat → Summary → Summary.
Variable summary_fmt_num : Summary → Summary.
Variable memory_usage_deep : DataFrame V → list Z.

Local Abbreviation compute_stats' :=
  (compute_stats Summary describe_number summary_round summary_fmt_num
     memory_usage_deep).
Local Abbreviation main_report' :=
  (main_report Summary describe_number summary_round memory_usage_deep).

(** X8.  The command-line report and the web statistics are the same
    numbers: whenever [main] gets to print a report for a table, the web
    profiler returns for that table too and every shared field is equal; the
    two differ in the rounding of the numeric summary only. *)
Theorem cli_report_agrees_with_web_statistics
    (df : DataFrame V) (encoding_used : string) (detected_delimiter : str)
    (report : Report Summary) :
  main_report' (df, encoding_used, detected_delimiter) = Ok report →
  ∃ stats,
    compute_stats' df = Ok stats
    ∧ rep_encoding report = encoding_used
    ∧ rep_detected_delimiter report = detected_delimiter
    ∧ rep_rows report = rows stats
    ∧ rep_cols report = cols stats
    ∧ rep_dtypes report = dtypes_df stats
    ∧ rep_missing_per_col report = missing_per_col_df stats
    ∧ rep_overall_missing report = overall_missing stats
    ∧ rep_overall_missing_pct report = overall_missing_pct stats
    ∧ rep_duplicates_count report = duplicates_count stats
    ∧ rep_dup_preview report
      = (if (0 <? duplicates_count stats)%Z
         then Some (dup_preview_df stats) else None)
    ∧ (is_Some (rep_numeric_summary report) ↔ has_numeric stats = true)
    ∧ (is_Some (numeric_summary_df stats) ↔ has_numeric stats = true)
    ∧ rep_preview report = preview_df stats
    ∧ rep_mem_usage_bytes report = mem_usage_bytes stats
    ∧ human_bytes (mem_usage_bytes stats) = Ok (rep_mem_usage_human report).
Proof.
  unfold main_report, compute_stats. cbv zeta.
  destruct (if 0 <? df_len df * df_width df then _ else _) as [pct|e];
    [|discriminate].
  cbn [mbind result_bind mret result_ret].
  destruct (human_bytes _) as [h|e] eqn:Hh; [|discriminate].
  cbn [mbind result_bind mret result_ret].
  intros [= <-]. eexists. split; [reflexivity|]. cbn.
  split_and!; try done.
  - destruct (negb _); [by split; eauto|]. split; [by intros []|done].
  - destruct (negb _); [by split; eauto|]. split; [by intros []|done].
Qed.

(** X9.  Duplicates and distinct rows add up to the rows; no duplicate is
    reported exactly when all rows differ; the duplicate preview holds
    [min 10 duplicates_count] rows. *)
Theorem duplicates_count_and_distinct_rows (df : DataFrame V) :
  well_formed df →
  ∃ stats,
    compute_stats' df = Ok stats
    ∧ (duplicates_count stats + Z.of_nat (length (remove_dups (df_rows df)))
       = Z.of_nat (rows stats))%Z
    ∧ (duplicates_count stats = 0%Z ↔ NoDup (df_rows df))
    ∧ (0 < rows stats → (duplicates_count stats < Z.of_nat (rows stats))%Z)
    ∧ length (df_rows (dup_preview_df stats))
      = 10 `min` Z.to_nat (duplicates_count stats).
Proof.
  intros Hwf.
  destruct (compute_stats_returns Summary describe_number summary_round
              summary_fmt_num memory_usage_deep df (or_introl Hwf))
    as (pct & Hstats & _).
  eexists. split; [exact Hstats|].
  cbn [duplicates_count rows dup_preview_df].
  pose proof (duplicated_count df) as Hcount.
  rewrite length_df_rows in Hcount.
  split_and!.
  - lia.
  - rewrite <- no_mark_iff_NoDup. lia.
  - intros Hrows.
    destruct (df_rows df) as [|r rws] eqn:Hrws.
    { pose proof (length_df_rows df) as Hlen. rewrite Hrws in Hlen.
      simpl in Hlen. lia. }
    assert (0 < length (remove_dups (r :: rws))); [|lia].
    rewrite remove_dups_cons_length. lia.
  - unfold getitem_mask. rewrite df_rows_head_take_rows.
    + rewrite length_take, length_fmap, length_true_positions. lia.
    + destruct (df_columns df) eqn:Hcols; [right|by left].
      by apply no_columns_no_duplicates.
Qed.

(** X10.  The preview is made of the first [min 10 rows] rows of the table, in
    their order, under the same column names and dtypes; the duplicate
    preview has the same columns too. *)
Theorem preview_is_the_first_ten_rows (df : DataFrame V) :
  well_formed df →
  ∃ stats,
    compute_stats' df = Ok stats
    ∧ df_rows (preview_df stats) = take 10 (df_rows df)
    ∧ length (df_rows (preview_df stats)) = 10 `min` rows stats
    ∧ df_names (preview_df stats) = df_names df
    ∧ df_dtypes (preview_df stats) = df_dtypes df
    ∧ well_formed (preview_df stats)
    ∧ df_names (dup_preview_df stats) = df_names df
    ∧ df_dtypes (dup_preview_df stats) = df_dtypes df.
Proof.
  intros Hwf.
  destruct (compute_stats_returns Summary describe_number summary_round
              summary_fmt_num memory_usage_deep df (or_introl Hwf))
    as (pct & Hstats & _).
  eexists. split; [exact Hstats|]. cbn [preview_df dup_preview_df rows].
  split_and!.
  - apply df_rows_head.
  - by rewrite df_rows_head, length_take, length_df_rows.
  - apply df_names_head.
  - apply df_dtypes_head.
  - by apply well_formed_head.
  - rewrite df_names_head. unfold getitem_mask. apply df_names_take_rows.
  - rewrite df_dtypes_head. unfold getitem_mask. apply df_names_take_rows.
Qed.

(** X11.  A numeric summary is produced exactly when the table has at least
    one row and at least one column of a numeric dtype. *)
Theorem numeric_summary_needs_rows_and_a_numeric_column (df : DataFrame V) :
  well_formed df →
  ∃ stats,
    compute_stats' df = Ok stats
    ∧ (has_numeric stats = true
       ↔ 0 < rows stats
         ∧ ∃ c, c ∈ df_columns df ∧ is_number (col_dtype c) = true)
    ∧ (is_Some (numeric_summary_df stats) ↔ has_numeric stats = true).
Proof.
  intros Hwf.
  destruct (compute_stats_returns Summary describe_number summary_round
              summary_fmt_num memory_usage_deep df (or_introl Hwf))
    as (pct & Hstats & _).
  eexists. split; [exact Hstats|]. cbn [has_numeric numeric_summary_df rows].
  split.
  - rewrite negb_true_iff. by apply numeric_part_empty.
  - destruct (negb _); [by split; eauto|]. split; [by intros []|done].
Qed.

(** X12.  [missing_per_col] lists the columns by name, in their order, each
    with the number of its missing cells, which is at most [rows];
    [overall_missing] is their sum and at most [rows * cols]. *)
Theorem missing_per_column_counts (df : DataFrame V) :
  well_formed df →
  ∃ stats,
    compute_stats' df = Ok stats
    ∧ (missing_per_col_df stats).*1 = df_names df
    ∧ (∀ i c, df_columns df !! i = Some c →
         missing_per_col_df stats !! i
         = Some (col_name c, length (filter (λ cell, cell = None) (col_cells c))))
    ∧ Forall (λ entry, entry.2 ≤ rows stats) (missing_per_col_df stats)
    ∧ overall_missing stats
      = Z.of_nat (foldr plus 0 ((missing_per_col_df stats).*2))
    ∧ (0 ≤ overall_missing stats ≤ Z.of_nat (rows stats * cols stats))%Z.
Proof.
  intros Hwf.
  destruct (compute_stats_returns Summary describe_number summary_round
              summary_fmt_num memory_usage_deep df (or_introl Hwf))
    as (pct & Hstats & _).
  eexists. split; [exact Hstats|].
  cbn [missing_per_col_df rows cols overall_missing].
  split_and!.
  - apply isna_sum_names.
  - intros i c Hc. unfold isna_sum. rewrite list_lookup_fmap, Hc. csimpl.
    do 2 f_equal. apply count_missing_cells.
  - by apply isna_sum_bounded.
  - reflexivity.
  - by apply missing_at_most_cells.
  - by apply missing_at_most_cells.
Qed.

(** X13.  The percentage attains both ends exactly: 0.0 when no cell is
    missing and 100.0 when every cell is. *)
Theorem overall_missing_pct_extremes (df : DataFrame V) :
  well_formed df →
  0 < df_len df * df_width df →
  ∃ stats,
    compute_stats' df = Ok stats
    ∧ (overall_missing stats = 0%Z → (overall_missing_pct stats == 0)%Q)
    ∧ (overall_missing stats = Z.of_nat (rows stats * cols stats) →
       (overall_missing_pct stats == 100)%Q).
Proof.
  intros Hwf Hcells.
  destruct (compute_stats_returns Summary describe_number summary_round
              summary_fmt_num memory_usage_deep df (or_introl Hwf))
    as (pct & Hstats & _ & _ & Hpos & _).
  eexists. split; [exact Hstats|].
  cbn [overall_missing overall_missing_pct rows cols].
  rewrite (Hpos Hcells).
  split; intros Hall; by apply (percentage_extremes _ _ Hcells).
Qed.

End MoreProfilerFacts.

Lemma cli_report_agrees_with_web_statistics_witness :
  ∃ report stats,
    main_report unit (λ _, tt) (λ _ s, s) (λ _, [132%Z])
      (one_missing_cell, "utf-8", lit ",") = Ok report
    ∧ compute_stats unit (λ _, tt) (λ _ s, s) (λ s, s) (λ _, [132%Z])
        one_missing_cell = Ok stats
    ∧ rep_overall_missing_pct report = overall_missing_pct stats
    ∧ rep_duplicates_count report = duplicates_count stats.
Proof.
  destruct (main_report unit (λ _, tt) (λ _ s, s) (λ _, [132%Z])
              (one_missing_cell, "utf-8", lit ",")) as [report|] eqn:Hreport;
    [|by vm_compute in Hreport].
  destruct (cli_report_agrees_with_web_statistics
              unit (λ _, tt) (λ _ s, s) (λ s, s) (λ _, [132%Z])
              one_missing_cell "utf-8" (lit ",") report Hreport)
    as (stats & Hstats & _ & _ & _ & _ & _ & _ & _ & Hpct & Hdup & _).
  exists report, stats. split_and!; [reflexivity | assumption..].
Defined.

Lemma duplicates_count_and_distinct_rows_witness :
  ∃ stats,
    compute_stats unit (λ _, tt) (λ _ s, s) (λ s, s) (λ _, [132%Z])
      twice_the_same_row = Ok stats
    ∧ (duplicates_count stats
       + Z.of_nat (length (remove_dups (df_rows twice_the_same_row)))
       = Z.of_nat (rows stats))%Z.
Proof.
  destruct (duplicates_count_and_distinct_rows
              unit (λ _, tt) (λ _ s, s) (λ s, s) (λ _, [132%Z])
              twice_the_same_row)
    as (stats & Hstats & Hsum & _).
  - repeat constructor.
  - exists stats. split; assumption.
Defined.

Lemma preview_is_the_first_ten_rows_witness :
  ∃ stats,
    compute_stats unit (λ _, tt) (λ _ s, s) (λ s, s) (λ _, [132%Z])
      one_missing_cell = Ok stats
    ∧ df_rows (preview_df stats) = take 10 (df_rows one_missing_cell).
Proof.
  destruct (preview_is_the_first_ten_rows
              unit (λ _, tt) (λ _ s, s) (λ s, s) (λ _, [132%Z]) one_missing_cell)
    as (stats & Hstats & Hrows & _).
  - repeat constructor.
  - exists stats. split; assumption.
Defined.

Lemma numeric_summary_needs_rows_and_a_numeric_column_witness :
  ∃ stats,
    compute_stats unit (λ _, tt) (λ _ s, s) (λ s, s) (λ _, [132%Z])
      one_missing_cell = Ok stats
    ∧ has_numeric stats = true.
Proof.
  destruct (numeric_summary_needs_rows_and_a_numeric_column
              unit (λ _, tt) (λ _ s, s) (λ s, s) (λ _, [132%Z]) one_missing_cell)
    as (stats & Hstats & Hnum & _).
  - repeat constructor.
  - exists stats. split; [assumption|]. apply Hnum.
    vm_compute in Hstats. injection Hstats as <-. split; [cbn; lia|].
    eexists. split; [apply list_elem_of_here | reflexivity].
Defined.

Lemma missing_per_column_counts_witness :
  ∃ stats,
    compute_stats unit (λ _, tt) (λ _ s, s) (λ s, s) (λ _, [132%Z])
      one_missing_cell = Ok stats
    ∧ (missing_per_col_df stats).*1 = [lit "x"; lit "y"]
    ∧ (0 ≤ overall_missing stats ≤ Z.of_nat (rows stats * cols stats))%Z.
Proof.
  destruct (missing_per_column_counts
              unit (λ _, tt) (λ _ s, s) (λ s, s) (λ _, [132%Z]) one_missing_cell)
    as (stats & Hstats & Hnames & _ & _ & _ & Hrange).
  - repeat constructor.
  - exists stats. split_and!; [assumption | exact Hnames | apply Hrange..].
Defined.

Lemma overall_missing_pct_extremes_witness :
  ∃ stats,
    compute_stats unit (λ _, tt) (λ _ s, s) (λ s, s) (λ _, [132%Z])
      twice_the_same_row = Ok stats
    ∧ (overall_missing_pct stats == 0)%Q.
Proof.
  destruct (overall_missing_pct_extremes
              unit (λ _, tt) (λ _ s, s) (λ s, s) (λ _, [132%Z]) twice_the_same_row)
    as (stats & Hstats & Hnone & _).
  - repeat constructor.
  - cbn. lia.
  - exists stats. split; [assumption|]. apply Hnone.
    vm_compute in Hstats. by injection Hstats as <-.
Defined.

(** ** The upload route *)

Lemma list_ascii_of_string_app (s1 s2 : string) :
  list_ascii_of_string (s1 +:+ s2)
  = list_ascii_of_string s1 ++ list_ascii_of_string s2.
Proof.
  induction s1 as [|c s1 IH]; [done|].
  change (c :: list_ascii_of_string (s1 +:+ s2)
          = c :: (list_ascii_of_string s1 ++ list_ascii_of_string s2)).
  by rewrite IH.
Qed.

Lemma string_of_list_ascii_app (l1 l2 : list ascii) :
  string_of_list_ascii (l1 ++ l2)
  = string_of_list_ascii l1 +:+ string_of_list_ascii l2.
Proof.
  induction l1 as [|c l1 IH]; [done|].
  change (String c (string_of_list_ascii (l1 ++ l2))
          = String c (string_of_list_ascii l1 +:+ string_of_list_ascii l2)).
  by rewrite IH.
Qed.

(** [rsplit] cuts at the last separator. *)
Lemma rsplit1_spec (sep : ascii) (s : list ascii) :
  ((sep ∉ s) ∧ rsplit1 sep s = [s])
  ∨ ∃ before after,
      rsplit1 sep s = [before; after]
      ∧ s = before ++ sep :: after
      ∧ sep ∉ after.
Proof.
  induction s as [|c s IH].
  - left. split; [apply not_elem_of_nil | done].
  - cbn [rsplit1]. destruct IH as [[Hnot ->] | (before & after & -> & -> & Hafter)].
    + destruct s as [|c' s'].
      * case_decide as Hc; [subst c|].
        -- right. exists [], []. split_and!; [done | done | apply not_elem_of_nil].
        -- left. split; [|done]. rewrite elem_of_cons. intros [-> | ?]; [done|].
           by eapply not_elem_of_nil.
      * case_decide as Hc; [subst c|].
        -- right. exists [], (c' :: s'). by split_and!.
        -- left. split; [|done]. rewrite elem_of_cons. intros [-> | ?]; tauto.
    + right. destruct before as [|x before'].
      * exists [c], after. by split_and!.
      * destruct after as [|y after'].
        -- exists (c :: x :: before'), []. by split_and!.
        -- exists (c :: x :: before'), (y :: after'). by split_and!.
Qed.

Lemma last_separator_unique (sep : ascii) (b1 a1 b2 a2 : list ascii) :
  b1 ++ sep :: a1 = b2 ++ sep :: a2 → sep ∉ a1 → sep ∉ a2 → a1 = a2.
Proof.
  revert b2. induction b1 as [|x b1 IH]; intros [|y b2] Heq H1 H2.
  - by injection Heq.
  - injection Heq as <- ->. exfalso. apply H1.
    apply elem_of_app. right. apply list_elem_of_here.
  - injection Heq as -> <-. exfalso. apply H2.
    apply elem_of_app. right. apply list_elem_of_here.
  - injection Heq as _ Heq. by eapply IH.
Qed.

Lemma lower_char_c (a : ascii) :
  lower_char a = "c"%char → a = "c"%char ∨ a = "C"%char.
Proof.
  destruct a as [[] [] [] [] [] [] [] []]; vm_compute; intros H;
    first [discriminate H | by left | by right].
Qed.

Lemma lower_char_s (a : ascii) :
  lower_char a = "s"%char → a = "s"%char ∨ a = "S"%char.
Proof.
  destruct a as [[] [] [] [] [] [] [] []]; vm_compute; intros H;
    first [discriminate H | by left | by right].
Qed.

Lemma lower_char_v (a : ascii) :
  lower_char a = "v"%char → a = "v"%char ∨ a = "V"%char.
Proof.
  destruct a as [[] [] [] [] [] [] [] []]; vm_compute; intros H;
    first [discriminate H | by left | by right].
Qed.


Lemma lower_is_csv (ext : list ascii) :
  lower (string_of_list_ascii ext) = "csv"
  ↔ string_of_list_ascii ext ∈ csv_spellings.
Proof.
  unfold lower. rewrite list_ascii_of_string_of_list_ascii. split.
  - intros H. apply (f_equal list_ascii_of_string) in H.
    rewrite list_ascii_of_string_of_list_ascii in H.
    destruct ext as [|x [|y [|z [|? ?]]]]; try discriminate H.
    injection H as Hx Hy Hz.
    apply lower_char_c in Hx. apply lower_char_s in Hy. apply lower_char_v in Hz.
    destruct Hx as [-> | ->], Hy as [-> | ->], Hz as [-> | ->];
      apply (bool_decide_unpack _); vm_compute; exact I.
  - intros H. unfold csv_spellings in H.
    repeat (apply elem_of_cons in H as [H | H];
            [apply (f_equal list_ascii_of_string) in H;
             rewrite list_ascii_of_string_of_list_ascii in H; by subst ext|]).
    by apply elem_of_nil in H.
Qed.

Lemma csv_spellings_no_dot (ext : string) :
  ext ∈ csv_spellings → "."%char ∉ list_ascii_of_string ext.
Proof.
  unfold csv_spellings. intros H.
  repeat (apply elem_of_cons in H as [-> | H];
          [apply (bool_decide_unpack _); vm_compute; exact I|]).
  by apply elem_of_nil in H.
Qed.

Lemma allowed_file_spec (filename : string) :
  ∃ ok, allowed_file filename = Ok ok
        ∧ (ok = true ↔ ∃ stem ext,
                         filename = stem +:+ "." +:+ ext ∧ ext ∈ csv_spellings).
Proof.
  unfold allowed_file.
  destruct (rsplit1_spec "."%char (list_ascii_of_string filename))
    as [[Hnot Hsplit] | (before & after & Hsplit & Hname & Hafter)].
  - rewrite bool_decide_eq_false_2 by done. exists false. split; [done|].
    split; [done|]. intros (stem & ext & -> & _). exfalso. apply Hnot.
    rewrite !list_ascii_of_string_app. apply elem_of_app. right.
    apply list_elem_of_here.
  - rewrite bool_decide_eq_true_2
      by (rewrite Hname; apply elem_of_app; right; apply list_elem_of_here).
    rewrite Hsplit. eexists. split; [reflexivity|].
    rewrite bool_decide_eq_true. unfold ALLOWED_EXTENSIONS.
    rewrite list_elem_of_singleton, lower_is_csv. split.
    + intros Hext. exists (string_of_list_ascii before), (string_of_list_ascii after).
      split; [|done].
      rewrite <- (string_of_list_ascii_of_string filename), Hname.
      by rewrite string_of_list_ascii_app.
    + intros (stem & ext & -> & Hext).
      rewrite !list_ascii_of_string_app in Hname.
      apply last_separator_unique in Hname;
        [| by apply csv_spellings_no_dot | done].
      by rewrite <- Hname, string_of_list_ascii_of_string.
Qed.

(** X14.  [allowed_file] never raises (the part after the last dot is only taken
    when the name has a dot), and it accepts exactly the names that end in a
    dot followed by [csv] in any mix of upper and lower case. *)
Theorem allowed_file_accepts_exactly_dot_csv (filename : string) :
  ∃ ok, allowed_file filename = Ok ok
        ∧ (ok = true ↔ ∃ stem ext,
                         filename = stem +:+ "." +:+ ext ∧ ext ∈ csv_spellings).
Proof. exact (allowed_file_spec filename). Qed.

Lemma round2_in_range (pct : Q) :
  (0 <= pct <= 100)%Q → (0 <= round2 pct <= 100)%Q.
Proof.
  intros [Hlo Hhi]. unfold round2.
  assert (0 <= Float64.rne (pct * 100) <= 10000)%Z as [Hn0 Hn1].
  { split.
    - apply rne_nonneg. lra.
    - rewrite <- (rne_inject_Z 10000). apply rne_le.
      change (inject_Z 10000) with 10000%Q. lra. }
  rewrite Zle_Qle in Hn0, Hn1.
  change (inject_Z 0) with 0%Q in Hn0.
  change (inject_Z 10000) with 10000%Q in Hn1.
  set (n := inject_Z (Float64.rne (pct * 100))) in *. clearbody n.
  split.
  - apply round_nonneg. apply Qle_shift_div_l; lra.
  - apply Qle_trans with (Float64.round 100).
    + apply round_le. apply Qle_shift_div_r; lra.
    + pose proof (round_inject_Z_exact 100 ltac:(lia)) as H100.
      change (inject_Z 100) with 100%Q in H100. rewrite H100. lra.
Qed.

Section RouteFacts.
Context {V : Type} `{EqDecision V}.
Variable Sniffer_sniff : str → list str → result Dialect.
Variable python_parser : str → option str → result (DataFrame V).
Variable c_parser : str → option str → bool → result (DataFrame V).
Variable Summary : Type.
Variable describe_number : DataFrame V → Summary.
Variable summary_round : nat → Summary → Summary.
Variable summary_fmt_num : Summary → Summary.
Variable memory_usage_deep : DataFrame V → list Z.
Variable secure_filename : str → string.

Local Abbreviation compute_stats' :=
  (compute_stats Summary describe_number summary_round summary_fmt_num
     memory_usage_deep).
Local Abbreviation analyze' :=
  (analyze Sniffer_sniff python_parser c_parser Summary describe_number
     summary_round summary_fmt_num memory_usage_deep).
Local Abbreviation analyze_route' :=
  (analyze_route Sniffer_sniff python_parser c_parser Summary describe_number
     summary_round summary_fmt_num memory_usage_deep secure_filename).

(** The response of the handlers to an exception. *)
Lemma analyze_status (filename : string) (data_bytes : bytes) :
  status (analyze' filename data_bytes) = 200
  ∨ status (analyze' filename data_bytes) = 400
  ∨ status (analyze' filename data_bytes) = 500.
Proof.
  unfold analyze. cbv zeta.
  destruct (is_blank data_bytes); [by right; left|].
  destruct (parse_csv_bytes _ _ _ _) as [[[df enc] d]|e];
    cbn [mbind result_bind mret result_ret].
  2: { destruct e; cbn [status]; auto. }
  destruct (compute_stats' df) as [stats|e];
    cbn [mbind result_bind mret result_ret].
  2: { destruct e; cbn [status]; auto. }
  destruct (human_bytes _) as [h|e]; cbn [mbind result_bind mret result_ret].
  - by left.
  - destruct e; cbn [status]; auto.
Qed.

Lemma analyze_results_page (filename : string) (data_bytes : bytes)
    (ctx : ResultsContext Summary) (code : nat) :
  analyze' filename data_bytes = results_page ctx code →
  code = 200 ∧ ctx_filename ctx = filename ∧ is_blank data_bytes = false.
Proof.
  unfold analyze. cbv zeta.
  destruct (is_blank data_bytes); [discriminate|].
  destruct (parse_csv_bytes _ _ _ _) as [[[df enc] d]|e];
    cbn [mbind result_bind mret result_ret].
  2: { destruct e; discriminate. }
  destruct (compute_stats' df) as [stats|e];
    cbn [mbind result_bind mret result_ret].
  2: { destruct e; discriminate. }
  destruct (human_bytes _) as [h|e]; cbn [mbind result_bind mret result_ret].
  - by intros [= <- <-].
  - destruct e; discriminate.
Qed.

(** X15.  The [/analyze] handler always answers, with status 200, 400 or 500; a
    request without a file part, with an empty file name, or with a secured
    name that does not end in [.csv] (any case) is answered 400 without reading
    the upload; and a results page is only ever rendered, with status 200, for
    a non-blank upload whose secured name ends in [.csv], under that name. *)
Theorem analyze_route_gatekeeping (files : Mapping FileStorage) :
  ∃ r, analyze_route' files = Ok r
    ∧ (status r = 200 ∨ status r = 400 ∨ status r = 500)
    ∧ (files "file" = None → r = index_page "No file part in the request." 400)
    ∧ (∀ file, files "file" = Some file →
         (fs_filename file = [] → r = index_page "No selected file." 400)
         ∧ (fs_filename file ≠ [] →
            (¬ ∃ stem ext, secure_filename (fs_filename file)
                             = stem +:+ "." +:+ ext ∧ ext ∈ csv_spellings) →
            r = index_page "Invalid file type. Only .csv files are allowed." 400)
         ∧ (fs_filename file ≠ [] →
            (∃ stem ext, secure_filename (fs_filename file)
                           = stem +:+ "." +:+ ext ∧ ext ∈ csv_spellings) →
            r = analyze' (secure_filename (fs_filename file)) (fs_content file)))
    ∧ (∀ ctx code, r = results_page ctx code →
         code = 200
         ∧ ∃ file stem ext,
             files "file" = Some file
             ∧ fs_filename file ≠ []
             ∧ secure_filename (fs_filename file) = stem +:+ "." +:+ ext
             ∧ ext ∈ csv_spellings
             ∧ ctx_filename ctx = secure_filename (fs_filename file)
             ∧ is_blank (fs_content file) = false).
Proof.
  unfold analyze_route.
  destruct (files "file") as [file|] eqn:Hfile.
  2: { eexists. split; [reflexivity|].
       split_and!; [by right; left | done | intros ? [=] | intros ? ? [=]]. }
  case_decide as Hname.
  { eexists. split; [reflexivity|].
    split_and!; [by right; left | intros [=] | | intros ? ? [=]].
    intros ? [= <-]. split_and!; [done | done..]. }
  cbv zeta.
  destruct (allowed_file_spec (secure_filename (fs_filename file)))
    as (ok & -> & Hok).
  cbn [mbind result_bind mret result_ret].
  destruct ok; cbn [negb].
  - pose proof (proj1 Hok eq_refl) as Hcsv.
    eexists. split; [reflexivity|].
    split_and!; [apply analyze_status | intros [=] | |].
    + intros ? [= <-]. split_and!; [done | tauto | done].
    + intros ctx code Hr.
      apply analyze_results_page in Hr as (-> & Hctx & Hblank).
      split; [done|]. destruct Hcsv as (stem & ext & Hsec & Hext).
      by exists file, stem, ext.
  - assert (¬ ∃ stem ext, secure_filename (fs_filename file)
                            = stem +:+ "." +:+ ext ∧ ext ∈ csv_spellings)
      as Hnot by (intros H'; by apply Hok in H').
    eexists. split; [reflexivity|].
    split_and!; [by right; left | intros [=] | | intros ? ? [=]].
    intros ? [= <-]. split_and!; [done | done | tauto].
Qed.

End RouteFacts.

Section ResponseFacts.
Context {V : Type} `{EqDecision V}.
Variable Sniffer_sniff : str → list str → result Dialect.
Variable python_parser : str → option str → result (DataFrame V).
Variable c_parser : str → option str → bool → result (DataFrame V).
Variable Summary : Type.
Variable describe_number : DataFrame V → Summary.
Variable summary_round : nat → Summary → Summary.
Variable summary_fmt_num : Summary → Summary.
Variable memory_usage_deep : DataFrame V → list Z.

Local Abbreviation compute_stats' :=
  (compute_stats Summary describe_number summary_round summary_fmt_num
     memory_usage_deep).
Local Abbreviation analyze' :=
  (analyze Sniffer_sniff python_parser c_parser Summary describe_number
     summary_round summary_fmt_num memory_usage_deep).

(** X16.  Once the parser has returned a table (one cell per row in every
    column) whose memory estimate is a byte count a float can hold, the
    profiler does not raise and the results page is rendered with status 200:
    under the accepted name, with the encoding tag of the decoding, the
    sniffed delimiter, the statistics of the table, a rounded percentage
    within [0, 100], a duplicates preview exactly when some row repeats, and a
    numeric summary exactly when the statistics report numeric columns. *)
Theorem analyze_renders_every_parsed_table
    (filename : string) (data_bytes : bytes) :
  is_blank data_bytes = false →
  ∃ (text : str) (encoding_used : string) (detected_delimiter : str),
    (Codec.decode data_bytes "utf-8" = Ok text ∧ encoding_used = "utf-8"
     ∨ Codec.decode data_bytes "utf-8" = Raise UnicodeDecodeError
       ∧ Codec.decode data_bytes "latin-1" = Ok text
       ∧ encoding_used = "latin-1")
    ∧ sniff_delimiter Sniffer_sniff (take sample_size text)
      = Ok detected_delimiter
    ∧ ∀ df,
        python_parser text None = Ok df →
        well_formed df →
        (0 ≤ sum_Z (memory_usage_deep df) < 2 ^ 1024 - 2 ^ 970)%Z →
        ∃ ctx,
          analyze' filename data_bytes = results_page ctx 200
          ∧ ctx_filename ctx = filename
          ∧ ctx_encoding_used ctx = encoding_used
          ∧ ctx_detected_delimiter ctx = detected_delimiter
          ∧ compute_stats' df = Ok (ctx_stats ctx)
          ∧ ctx_overall_missing_pct ctx
            = round2 (overall_missing_pct (ctx_stats ctx))
          ∧ (0 <= ctx_overall_missing_pct ctx <= 100)%Q
          ∧ (ctx_dup_preview ctx = None ↔ NoDup (df_rows df))
          ∧ (ctx_dup_preview ctx ≠ None →
             ctx_dup_preview ctx = Some (dup_preview_df (ctx_stats ctx)))
          ∧ (ctx_numeric_summary ctx ≠ None ↔ has_numeric (ctx_stats ctx) = true)
          ∧ human_bytes (mem_usage_bytes (ctx_stats ctx))
            = Ok (ctx_mem_usage_human ctx).
Proof.
  intros Hblank.
  destruct (ingestion_after_decoding data_bytes)
    as (text & enc & Hdec & _ & _ & Hweb & _).
  exists text, enc. eexists. split_and!.
  { destruct Hdec as [(_ & ? & ?) | (_ & ? & ? & ?)]; auto. }
  { apply sniff_delimiter_returns. }
  intros df Hparse Hwf Hmem.
  destruct (compute_stats_returns Summary describe_number summary_round
              summary_fmt_num memory_usage_deep df (or_introl Hwf))
    as (pct & Hstats & _ & _ & _ & Hpct).
  destruct (human_bytes_in_float_range _ Hmem)
    as (f & i & unit & _ & _ & Hhuman & _).
  eexists. split.
  { unfold analyze. rewrite Hblank, Hweb, sniff_delimiter_returns.
    cbn [mbind result_bind mret result_ret read_csv].
    rewrite Hparse. cbn [mbind result_bind mret result_ret].
    rewrite Hstats. cbn [mbind result_bind mret result_ret mem_usage_bytes].
    rewrite Hhuman. reflexivity. }
  cbn [ctx_filename ctx_encoding_used ctx_detected_delimiter ctx_stats
       ctx_overall_missing_pct ctx_dup_preview ctx_numeric_summary
       ctx_mem_usage_human overall_missing_pct duplicates_count has_numeric
       dup_preview_df numeric_summary_df mem_usage_bytes].
  split_and!; try done.
  - by apply round2_in_range.
  - by apply round2_in_range.
  - rewrite <- no_mark_iff_NoDup.
    destruct (count_true (duplicated df)) as [|n]; [done|].
    split; [discriminate | lia].
  - by destruct (0 <? _)%Z.
  - destruct (negb (df_empty (select_dtypes_number df))); split; done.
Qed.

(** X17.  The decoding of the upload cannot fail (Latin-1 takes every byte), so
    for a non-blank upload the "Failed to decode" page is shown exactly when
    the parser itself raises [UnicodeDecodeError] on the decoded text; a
    [ParserError] is answered 400 with its message; and the status is 500
    exactly when the parser raises any other exception than the three handled
    ones, or the profiler or the size formatting raises. *)
Theorem analyze_error_pages (filename : string) (data_bytes : bytes) :
  is_blank data_bytes = false →
  ∃ text : str,
    (Codec.decode data_bytes "utf-8" = Ok text
     ∨ Codec.decode data_bytes "utf-8" = Raise UnicodeDecodeError
       ∧ Codec.decode data_bytes "latin-1" = Ok text)
    ∧ (analyze' filename data_bytes
       = index_page
           "Failed to decode the file. Try saving as UTF-8 or Latin-1." 400
       ↔ python_parser text None = Raise UnicodeDecodeError)
    ∧ (∀ msg, python_parser text None = Raise (ParserError msg) →
         analyze' filename data_bytes
         = index_page ("Failed to parse CSV: " +:+ msg) 400)
    ∧ (status (analyze' filename data_bytes) = 500
       ↔ (∃ e, python_parser text None = Raise e
               ∧ e ≠ UnicodeDecodeError
               ∧ (∀ msg, e ≠ EmptyDataError msg)
               ∧ (∀ msg, e ≠ ParserError msg))
         ∨ (∃ df, python_parser text None = Ok df
                  ∧ ((∃ e, compute_stats' df = Raise e)
                     ∨ ∃ stats, compute_stats' df = Ok stats
                                ∧ human_bytes (mem_usage_bytes stats)
                                  = Raise OverflowError))).
Proof.
  intros Hblank.
  destruct (analyze_after_decoding Sniffer_sniff python_parser c_parser Summary
              describe_number summary_round summary_fmt_num memory_usage_deep
              filename data_bytes Hblank)
    as (text & enc & d & Hdec & Hrun).
  exists text. split; [done|]. rewrite Hrun. clear Hrun. cbv zeta.
  destruct (python_parser text None) as [df|e] eqn:Hparse.
  - destruct (compute_stats' df) as [stats|e] eqn:Hstats.
    + destruct (human_bytes (mem_usage_bytes stats)) as [h|e] eqn:Hhuman.
      * split_and!; [split; discriminate | discriminate |].
        cbn [status]. split; [discriminate|].
        intros [(e & [=] & _) | (df' & [= <-] & [(e & He) | (st & Hst & Hh)])].
        -- congruence.
        -- congruence.
      * apply human_bytes_raises in Hhuman as Hov. subst e.
        split_and!; [split; discriminate | discriminate |].
        cbn [status]. split; [|done]. intros _. right. exists df.
        split; [done|]. right. by exists stats.
    + apply compute_stats_raises in Hstats as Hcases.
      assert (status (match e with
                      | UnicodeDecodeError =>
                        index_page (V:=V) (Summary:=Summary)
                          "Failed to decode the file. Try saving as UTF-8 or Latin-1." 400
                      | EmptyDataError _ =>
                        index_page "The CSV appears to be empty or has no columns." 400
                      | ParserError msg =>
                        index_page ("Failed to parse CSV: " +:+ msg) 400
                      | _ =>
                        index_page
                          "An unexpected error occurred while analyzing the file." 500
                      end) = 500) as Hst by (destruct Hcases; by subst e).
      split_and!.
      * split; [|discriminate]. intros Hpage. rewrite Hpage in Hst. discriminate.
      * discriminate.
      * split; [|done]. intros _. right. exists df. split; [done|]. left. eauto.
  - split_and!.
    + split; [|by intros [= ->]]. destruct e; try discriminate; try done.

    + by intros msg [= ->].
    + split.
      * intros Hst. left. exists e. split; [done|].
        destruct e; try discriminate Hst; split_and!; congruence.
      * intros [(e' & [= <-] & H1 & H2 & H3) | (df & [=] & _)].
        destruct e; try done; [by destruct (H2 msg) | by destruct (H3 msg)].
Qed.

End ResponseFacts.

(** ** The command-line program *)

(** X18.  The command-line program never prints a report: when the file cannot
    be read, the error of the read comes out; otherwise the option check of
    [read_csv] stops it, whatever the file holds. *)
Theorem main_never_prints_a_report {V : Type} `{EqDecision V}
    (sniff : str → list str → result Dialect)
    (parser : str → option str → result (DataFrame V))
    (cparser : str → option str → bool → result (DataFrame V))
    (Summary : Type) (describe_number : DataFrame V → Summary)
    (summary_round : nat → Summary → Summary)
    (memory_usage_deep : DataFrame V → list Z)
    (read_bytes : string → result bytes) (csv_path : string) :
  ∃ e,
    main sniff parser cparser Summary describe_number summary_round
      memory_usage_deep read_bytes csv_path = Raise e
    ∧ (∀ content, read_bytes csv_path = Ok content →
         e = ValueError
               "The 'low_memory' option is not supported with the 'python' engine")
    ∧ (∀ e', read_bytes csv_path = Raise e' → e = e').
Proof.
  unfold main.
  destruct (read_bytes csv_path) as [content|e'] eqn:Hread.
  - rewrite (read_csv_with_fallback_raises sniff parser cparser read_bytes
               csv_path content Hread).
    eexists. split; [reflexivity|]. split; [done | intros ? [=]].
  - unfold read_csv_with_fallback. rewrite Hread.
    exists e'. split; [reflexivity|]. split; [intros ? [=] | by intros ? [= ->]].
Qed.

(** ** The size limit *)

(** X19.  The limit comes from [MAX_CONTENT_LENGTH_MB], else from
    [UPLOAD_MAX_MB], else it is 10; when the text is an integer, the limit in
    bytes is that many times 1024 * 1024, and the megabytes shown on the pages
    are the configured ones again (also for a zero or negative setting). *)
Theorem size_limit_round_trip (int_of_str : string → result Z)
    (environ : Mapping string) (mb : Z) :
  MAX_CONTENT_LENGTH_MB int_of_str environ = Ok mb →
  MAX_CONTENT_LENGTH int_of_str environ = Ok (mb * 1048576)%Z
  ∧ max_size_mb (mb * 1048576) = mb
  ∧ (∀ text, environ "MAX_CONTENT_LENGTH_MB" = Some text →
       int_of_str text = Ok mb)
  ∧ (∀ text, environ "MAX_CONTENT_LENGTH_MB" = None →
       environ "UPLOAD_MAX_MB" = Some text → int_of_str text = Ok mb)
  ∧ (environ "MAX_CONTENT_LENGTH_MB" = None →
     environ "UPLOAD_MAX_MB" = None → int_of_str "10" = Ok mb).
Proof.
  intros Hmb. unfold MAX_CONTENT_LENGTH. rewrite Hmb.
  unfold MAX_CONTENT_LENGTH_MB, getenv in Hmb.
  split_and!.
  - cbn [mbind result_bind mret result_ret]. f_equal. lia.
  - unfold max_size_mb. change (1024 * 1024)%Z with 1048576%Z.
    by rewrite Z.div_mul.
  - intros text Hset. by rewrite Hset in Hmb.
  - intros text Hunset Hset. by rewrite Hunset, Hset in Hmb.
  - intros Hunset1 Hunset2. by rewrite Hunset1, Hunset2 in Hmb.
Qed.

Lemma analyze_renders_every_parsed_table_witness :
  ∃ ctx,
    analyze first_candidate_sniffer comma_reader no_c_parser
      unit (λ _, tt) (λ _ s, s) (λ s, s) (λ _, [132%Z])
      "data.csv" (b ("a,b" +:+ LF +:+ "1,2" +:+ LF)) = results_page ctx 200
    ∧ ctx_encoding_used ctx = "utf-8"
    ∧ ctx_detected_delimiter ctx = lit ","
    ∧ ctx_dup_preview ctx = None.
Proof.
  destruct (analyze_renders_every_parsed_table
              first_candidate_sniffer comma_reader no_c_parser
              unit (λ _, tt) (λ _ s, s) (λ s, s) (λ _, [132%Z])
              "data.csv" (b ("a,b" +:+ LF +:+ "1,2" +:+ LF)) eq_refl)
    as (text & enc & d & Hdec & Hsniff & Hrender).
  destruct Hdec as [[Hdec ->] | [Hdec _]]; [|discriminate Hdec].
  vm_compute in Hdec. injection Hdec as <-.
  vm_compute in Hsniff. injection Hsniff as <-.
  destruct (Hrender (mkDataFrame [mkColumn (lit "a") object_ [Some (lit "1")];
                                  mkColumn (lit "b") object_ [Some (lit "2")]]))
    as (ctx & Hpage & _ & Henc & Hd & _ & _ & _ & Hdup & _).
  - reflexivity.
  - vm_compute. repeat constructor.
  - split; [by vm_compute | reflexivity].
  - exists ctx. split_and!; [exact Hpage | exact Henc | exact Hd |].
    apply Hdup. vm_compute. repeat constructor. intros H. inversion H.
Defined.

Lemma analyze_error_pages_witness :
  analyze first_candidate_sniffer comma_reader no_c_parser
    unit (λ _, tt) (λ _ s, s) (λ s, s) (λ _, [132%Z])
    "data.csv" (b ("a,b" +:+ LF +:+ "1,2,3" +:+ LF))
  = index_page "Failed to parse CSV: Expected a different number of fields" 400.
Proof.
  destruct (analyze_error_pages
              first_candidate_sniffer comma_reader no_c_parser
              unit (λ _, tt) (λ _ s, s) (λ s, s) (λ _, [132%Z])
              "data.csv" (b ("a,b" +:+ LF +:+ "1,2,3" +:+ LF)) eq_refl)
    as (text & Hdec & _ & Hparse & _).
  destruct Hdec as [Hdec | [Hdec _]]; [|discriminate Hdec].
  vm_compute in Hdec. injection Hdec as <-.
  exact (Hparse _ eq_refl).
Defined.

Lemma size_limit_round_trip_witness :
  MAX_CONTENT_LENGTH
    (λ text, if String.eqb text "25" then Ok 25%Z
             else Raise (ValueError "invalid literal for int() with base 10"))
    (λ key, if String.eqb key "UPLOAD_MAX_MB" then Some "25" else None)
  = Ok 26214400%Z
  ∧ max_size_mb 26214400 = 25%Z.
Proof.
  destruct (size_limit_round_trip
              (λ text, if String.eqb text "25" then Ok 25%Z
                       else Raise (ValueError
                                     "invalid literal for int() with base 10"))
              (λ key, if String.eqb key "UPLOAD_MAX_MB" then Some "25" else None)
              25 eq_refl)
    as (Hlimit & Hshown & _).
  split; [exact Hlimit | exact Hshown].
Defined.
